(** * Ralph workspace spec checkup: a shallow embedding of [ralph_status.py]

    The script is a read-only diagnostic: it walks a workspace, reads a few
    files, runs a few shell commands and renders a markdown report.  The
    embedding keeps the structure of the script:

    - Python values are modelled as the script uses them ([Py]);
    - everything the script observes (filesystem, subprocess results,
      clock, host name, interpreter version, [json.load], whether the
      output file can be written) is a field of a [World] record, a
      point-in-time snapshot;
    - the filesystem is a tree whose directories carry the access rights
      of the process, and the calls of [pathlib] and [os] on it fail as
      those of CPython 3.11 do on Linux: with PermissionError where a
      directory cannot be searched or listed, with OSError where a name or
      a path is too long, with what [exists()] and [is_dir()] ignore
      otherwise;
    - every function of the script is a function of the same name over a
      [World], in a small monad [M] that carries the raised exception (if
      any) and the trace of probe calls and executed commands.

    [main] is modelled from the parsed arguments to what it has printed or
    written when it returns; argument parsing is not modelled. *)

From Stdlib Require Import List NArith ZArith Lia Bool String Ascii.
From Stdlib Require Import Sorting.Sorted Permutation FinFun.
From Equations Require Import Equations.
Import ListNotations.

Set Implicit Arguments.
Set Warnings "-register-all".

(* ===================================================================== *)
(** * Python values *)
(* ===================================================================== *)

Module Py.

(** A Python [str] is a sequence of Unicode code points: [len] counts
    code points and [strip]/[split] know the non-ASCII white space. *)
Definition char := N.
Definition str := list char.

(** An ASCII literal of the script. *)
Definition lit (s : string) : str :=
  map N_of_ascii (list_ascii_of_string s).

Definition NL : char := 10%N.

Definition char_eqb : char -> char -> bool := N.eqb.

Fixpoint eqb (a b : str) : bool :=
  match a, b with
  | [], [] => true
  | x :: a', y :: b' => char_eqb x y && eqb a' b'
  | _, _ => false
  end.

(** Sequences compare lexicographically, the way [str] and [list] do. *)
Fixpoint lex {A} (cmp : A -> A -> comparison) (a b : list A) : comparison :=
  match a, b with
  | [], [] => Eq
  | [], _ :: _ => Lt
  | _ :: _, [] => Gt
  | x :: a', y :: b' =>
      match cmp x y with
      | Eq => lex cmp a' b'
      | c => c
      end
  end.

(** [str.__lt__]/[__le__]: lexicographic on code points. *)
Definition compare : str -> str -> comparison := lex N.compare.

(** [str.isspace] on one code point (CPython's [_PyUnicode_IsWhitespace]). *)
Definition isspace (c : char) : bool :=
  ((9 <=? c) && (c <=? 13) || (28 <=? c) && (c <=? 32)
   || (c =? 133) || (c =? 160) || (c =? 5760)
   || (8192 <=? c) && (c <=? 8202)
   || (c =? 8232) || (c =? 8233) || (c =? 8239) || (c =? 8287)
   || (c =? 12288))%N.

Fixpoint lstrip (s : str) : str :=
  match s with
  | c :: s' => if isspace c then lstrip s' else s
  | [] => []
  end.

Definition rstrip (s : str) : str := rev (lstrip (rev s)).

Definition strip (s : str) : str := rstrip (lstrip s).

Fixpoint startswith (prefix s : str) : bool :=
  match prefix, s with
  | [], _ => true
  | x :: p', y :: s' => char_eqb x y && startswith p' s'
  | _ :: _, [] => false
  end.

(** [s.split(sep)] for a one-character separator; [cur] is the piece
    being read, reversed.  [split_on sep s [] ] is never empty. *)
Fixpoint split_on (sep : char) (s : str) (cur : str) : list str :=
  match s with
  | [] => [rev cur]
  | c :: s' =>
      if char_eqb c sep then rev cur :: split_on sep s' []
      else split_on sep s' (c :: cur)
  end.

(** [s.split()]: fields separated by runs of white space. *)
Fixpoint split_ws (s : str) (cur : str) : list str :=
  match s with
  | [] => match cur with [] => [] | _ => [rev cur] end
  | c :: s' =>
      if isspace c then
        match cur with
        | [] => split_ws s' []
        | _ => rev cur :: split_ws s' []
        end
      else split_ws s' (c :: cur)
  end.

Definition split (s : str) : list str := split_ws s [].

(** [sep.join(parts)]. *)
Fixpoint join (sep : str) (parts : list str) : str :=
  match parts with
  | [] => []
  | [p] => p
  | p :: rest => p ++ sep ++ join sep rest
  end.

(** Truth value of a string or of a list: non-empty. *)
Definition nonempty {A} (l : list A) : bool :=
  match l with [] => false | _ => true end.

(** Slices [l[-n:]] and [l[:n]] for a positive literal [n]. *)
Definition last_n {A} (n : nat) (l : list A) : list A :=
  skipn (List.length l - n) l.
Definition first_n {A} (n : nat) (l : list A) : list A := firstn n l.

(** [str(n)] for an [int]. *)
Fixpoint digits (d : Decimal.uint) : str :=
  match d with
  | Decimal.Nil => []
  | Decimal.D0 d => 48%N :: digits d
  | Decimal.D1 d => 49%N :: digits d
  | Decimal.D2 d => 50%N :: digits d
  | Decimal.D3 d => 51%N :: digits d
  | Decimal.D4 d => 52%N :: digits d
  | Decimal.D5 d => 53%N :: digits d
  | Decimal.D6 d => 54%N :: digits d
  | Decimal.D7 d => 55%N :: digits d
  | Decimal.D8 d => 56%N :: digits d
  | Decimal.D9 d => 57%N :: digits d
  end.

Definition str_of_nat (n : nat) : str := digits (Nat.to_uint n).

Definition str_of_Z (z : Z) : str :=
  match z with
  | Z0 => lit "0"
  | Zpos p => digits (Pos.to_uint p)
  | Zneg p => lit "-" ++ digits (Pos.to_uint p)
  end.

(** A [dict] with string keys, in insertion order. *)
Definition dict (V : Type) := list (str * V).

Fixpoint dict_find {V} (k : str) (d : dict V) : option V :=
  match d with
  | [] => None
  | (k', v) :: d' => if eqb k k' then Some v else dict_find k d'
  end.

(** [d.get(k, default)]. *)
Definition dict_get {V} (k : str) (default : V) (d : dict V) : V :=
  match dict_find k d with Some v => v | None => default end.

(** [d[k] = v]: an existing key keeps its place. *)
Fixpoint dict_set {V} (k : str) (v : V) (d : dict V) : dict V :=
  match d with
  | [] => [(k, v)]
  | (k', v') :: d' =>
      if eqb k k' then (k', v) :: d' else (k', v') :: dict_set k v d'
  end.

(** The exceptions the script can meet outside a [try].  [OSError] stands
    for an [OSError] of no subclass (a name or a path that is too long),
    [ValueError] for a path that cannot be encoded. *)
Inductive exn : Type :=
| IndexError
| AttributeError
| TypeError
| NotADirectoryError
| FileNotFoundError
| PermissionError
| OSError
| ValueError.

End Py.

Import Py.

(** The non-ASCII literals of the script, by code point. *)
Definition WARNING_SIGN : str := [9888; 65039]%N.       (* U+26A0 U+FE0F *)
Definition NO_ENTRY_SIGN : str := [128683]%N.           (* U+1F6AB *)
Definition CHECK_MARK : str := [9989]%N.                (* U+2705 *)
Definition CROSS_MARK : str := [10060]%N.               (* U+274C *)

(* ===================================================================== *)
(** * JSON values, as [json.load] returns them *)
(* ===================================================================== *)

(** A [float] is observed by the script only through its truth value and
    its [str()]; both are carried. *)
Inductive json : Type :=
| JNone
| JBool (b : bool)
| JInt (n : Z)
| JFloat (nonzero : bool) (text : str)
| JStr (s : str)
| JList (l : list json)
| JDict (d : list (str * json)).

(** [bool(v)]. *)
Definition truthy (v : json) : bool :=
  match v with
  | JNone => false
  | JBool b => b
  | JInt n => negb (n =? 0)%Z
  | JFloat nz _ => nz
  | JStr s => nonempty s
  | JList l => nonempty l
  | JDict d => nonempty d
  end.

(** [v == 'text'] for a string literal. *)
Definition eq_str (v : json) (text : str) : bool :=
  match v with
  | JStr s => Py.eqb s text
  | _ => false
  end.

(* ===================================================================== *)
(** * The world the script observes *)
(* ===================================================================== *)

(** Absolute, resolved paths: the components below the root. *)
Definition Path := list str.

Definition parent (p : Path) : Path := removelast p.
Definition child (p : Path) (name : str) : Path := p ++ [name].
Notation "p // name" := (child p (lit name)) (at level 40, left associativity).

(** [str(p)] for an absolute path. *)
Definition path_str (p : Path) : str :=
  match p with
  | [] => lit "/"
  | _ => lit "/" ++ join (lit "/") p
  end.

(** [os.fsencode]: UTF-8 with [surrogateescape].  A code point
    U+DC80..U+DCFF stands for one undecodable byte of a file name; NUL and
    the other surrogates cannot be encoded. *)
Definition escaped_byte (c : char) : bool := ((56448 <=? c) && (c <=? 56575))%N.

Definition utf8_len (c : char) : N :=
  if (c <? 128)%N then 1%N
  else if (c <? 2048)%N then 2%N
  else if escaped_byte c then 1%N
  else if (c <? 65536)%N then 3%N
  else 4%N.

Definition encodable_char (c : char) : bool :=
  negb (c =? 0)%N
  && negb ((55296 <=? c)%N && (c <=? 57343)%N && negb (escaped_byte c)).

Definition nbytes (s : str) : N := fold_right (fun c n => (utf8_len c + n)%N) 0%N s.

Definition encodable (s : str) : bool := forallb encodable_char s.

(** The limits of the system on the length in bytes of a file name and of
    a path (Linux: a path of [PATH_MAX] bytes or more is refused). *)
Definition NAME_MAX : N := 255.
Definition PATH_MAX : N := 4096.

(** A regular file holds text, or cannot be opened or decoded ([None]).  A
    directory has its entries and two access rights of the process that
    runs the script: [listable] (its entries can be read) and [searchable]
    (a name can be looked up in it).  Symbolic links are not modelled. *)
Inductive node : Type :=
| File (text : option str)
| Dir (listable searchable : bool) (entries : list (str * node)).

(** What [subprocess.run(cmd, shell=True, capture_output=True, text=True,
    timeout=5)] does: it returns a completed process, whatever its exit
    status, or raises [TimeoutExpired], or raises another [Exception]
    whose [str()] is [msg]. *)
Inductive launch_result : Type :=
| Completed (returncode : Z) (stdout stderr : str)
| TimeoutExpired
| OtherError (msg : str).

Record World : Type := {
  fs : node;                                   (* the tree below "/" *)
  launch : str -> option Path -> launch_result;
  json_loads : str -> option json;             (* [None]: [json.load] raises *)
  py_repr : json -> str;                       (* [str()] of a list or a dict *)
  now : str;                     (* datetime.now().strftime('%Y-%m-%d %H:%M:%S') *)
  nodename : str;                              (* os.uname().nodename *)
  python_version : str;                        (* sys.version.split()[0] *)
  write_text : str -> str -> option exn
    (* [with open(file, "w") as f: f.write(text)]: [None] when the file is
       written, or the exception that is raised *)
}.

(* ===================================================================== *)
(** * Effects: exceptions and the trace of probes and commands *)
(* ===================================================================== *)

Inductive probe : Type :=
| P_ralph_status | P_session_log | P_git_info | P_resource_usage
| P_docker_status | P_system_deps.

Inductive event : Type :=
| Exec (cmd : str) (cwd : option Path)         (* one [subprocess.run] *)
| Call (p : probe) (spec_dir : option Path).   (* one probe entered *)

Inductive outcome (A : Type) : Type :=
| Returns (a : A)
| Raises (e : exn).
Arguments Raises {A} e.

Definition M (A : Type) : Type := (outcome A * list event)%type.

Definition ret {A} (a : A) : M A := (Returns a, []).
Definition raise {A} (e : exn) : M A := (Raises e, []).
Definition tick (ev : event) : M unit := (Returns tt, [ev]).

Definition bind {A B} (m : M A) (k : A -> M B) : M B :=
  match m with
  | (Returns a, t) => let (o, t') := k a in (o, t ++ t')
  | (Raises e, t) => (Raises e, t)
  end.

Notation "x <- m ;; k" := (bind m (fun x => k))
  (at level 61, m at next level, right associativity).
Notation "m ;;; k" := (bind m (fun _ => k))
  (at level 61, right associativity).

Definition value {A} (m : M A) : outcome A := fst m.
Definition trace {A} (m : M A) : list event := snd m.

(** A [for] loop that threads an accumulator. *)
Fixpoint for_each {A S} (l : list A) (body : A -> S -> M S) (s : S) : M S :=
  match l with
  | [] => ret s
  | x :: l' => s' <- body x s ;; for_each l' body s'
  end.

(** A generator: what it yields, in order, and the exception that ends it,
    if any. *)
Definition gen (A : Type) : Type := (list A * option exn)%type.

(** [yield from g], then [rest]. *)
Definition yield_from {A} (g rest : gen A) : gen A :=
  match g with
  | (l, None) => (l ++ fst rest, snd rest)
  | (l, Some e) => (l, Some e)
  end.

(** A [for] loop over a generator: the body runs for each item as it is
    yielded, and the exception that ends the generator leaves the loop. *)
Definition for_gen {A S} (g : gen A) (body : A -> S -> M S) (s : S) : M S :=
  s' <- for_each (fst g) body s ;;
  match snd g with
  | None => ret s'
  | Some e => raise e
  end.

(* ===================================================================== *)
(** * Library calls of the script *)
(* ===================================================================== *)

(** Text mode: "\r\n" and "\r" are read as "\n". *)
Fixpoint universal_newlines (s : str) : str :=
  match s with
  | [] => []
  | c :: s' =>
      if char_eqb c 13%N then
        NL :: match s' with
              | d :: s'' =>
                  if char_eqb d NL then universal_newlines s''
                  else universal_newlines s'
              | [] => []
              end
      else c :: universal_newlines s'
  end.

(** The lines of a text, each with its newline; [cur] is the line being
    read, reversed. *)
Fixpoint lines_keepends (s : str) (cur : str) : list str :=
  match s with
  | [] => match cur with [] => [] | _ => [rev cur] end
  | c :: s' =>
      if char_eqb c NL then rev (c :: cur) :: lines_keepends s' []
      else lines_keepends s' (c :: cur)
  end.

(** [f.readlines()]. *)
Definition readlines (text : str) : list str :=
  lines_keepends (universal_newlines text) [].

(** [p.name]: the last component. *)
Definition name (p : Path) : str := last p [].

(** [p.relative_to(base)] for an ancestor [base] of [p], and its [str()]. *)
Definition relative_to (p base : Path) : Path := skipn (List.length base) p.

Definition rel_str (parts : Path) : str :=
  match parts with
  | [] => lit "."
  | _ => join (lit "/") parts
  end.

(** [Path.__lt__]: the component lists, compared lexicographically. *)
Definition path_compare : Path -> Path -> comparison := lex Py.compare.

Definition path_leb (a b : Path) : bool :=
  match path_compare a b with Gt => false | _ => true end.

(** [sorted(l)] on paths: a stable sort; on a total order every stable sort
    returns the same list, so an insertion sort stands for it. *)
Fixpoint insert (x : Path) (l : list Path) : list Path :=
  match l with
  | [] => [x]
  | y :: l' => if path_leb x y then x :: l else y :: insert x l'
  end.

Fixpoint sorted (l : list Path) : list Path :=
  match l with
  | [] => []
  | x :: l' => insert x (sorted l')
  end.

(** [l[0]]. *)
Definition index0 {A} (l : list A) : M A :=
  match l with
  | x :: _ => ret x
  | [] => raise IndexError
  end.

Definition lift {A} (o : outcome A) : M A := (o, []).

(** Path resolution below a directory, as the system does it: a name is
    looked up in a directory that can be searched (EACCES otherwise) and is
    at most [NAME_MAX] bytes long (ENAMETOOLONG); a missing name is ENOENT,
    a name looked up in a regular file ENOTDIR. *)
Fixpoint resolve (n : node) (p : Path) : outcome node :=
  match p with
  | [] => Returns n
  | c :: p' =>
      match n with
      | File _ => Raises NotADirectoryError
      | Dir _ searchable es =>
          if negb searchable then Raises PermissionError
          else if (NAME_MAX <? nbytes c)%N then Raises OSError
          else
            match dict_find c es with
            | Some n' => resolve n' p'
            | None => Raises FileNotFoundError
            end
      end
  end.

(** [_ignore_error] of pathlib (ENOENT and ENOTDIR; EBADF and ELOOP do not
    arise here), and the ValueError that [exists()] and [is_dir()] catch
    beside it. *)
Definition ignored (e : exn) : bool :=
  match e with
  | FileNotFoundError | NotADirectoryError | ValueError => true
  | _ => false
  end.

Definition path_eq_dec : forall a b : Path, {a = b} + {a <> b} :=
  list_eq_dec (list_eq_dec N.eq_dec).

(** The dictionaries the probes build.  [get_git_info] returns either the
    empty dict or one with exactly these three keys: [option git_info]. *)
Record git_info : Type := {
  branch : str;
  recent_commits : list str;
  status : str
}.

Record dep_info : Type := {
  available : bool;
  path : str
}.

Definition DOCKER_PS : str :=
  lit "docker ps -a --format 'table {{.Names}}\t{{.Status}}\t{{.Size}}' 2>/dev/null".
Definition DOCKER_UNAVAILABLE : str := lit "Docker not available or not running".
Definition GIT_BRANCH : str := lit "git rev-parse --abbrev-ref HEAD".
Definition GIT_LOG : str :=
  lit "git log --oneline -5 2>/dev/null || echo 'no commits'".
Definition GIT_STATUS : str := lit "git status --short".
Definition WHICH_TIMEOUT : str := lit "which timeout".

(* ===================================================================== *)
(** * The script *)
(* ===================================================================== *)

Section Script.

Variable w : World.

(** ** Filesystem queries *)

(** [os.stat(p)]: a path with a component that cannot be encoded is
    refused before the system is asked (ValueError), a path of [PATH_MAX]
    bytes or more by the system (ENAMETOOLONG); otherwise the path is
    resolved from the root. *)
Definition stat (p : Path) : outcome node :=
  if negb (forallb encodable p) then Raises ValueError
  else if (PATH_MAX <=? nbytes (path_str p))%N then Raises OSError
  else resolve (fs w) p.

(** [p.exists()] and [p.is_dir()] of pathlib: the errors of [_ignore_error]
    and ValueError give [False], any other error is raised again. *)
Definition exists_ (p : Path) : outcome bool :=
  match stat p with
  | Returns _ => Returns true
  | Raises e => if ignored e then Returns false else Raises e
  end.

Definition is_dir (p : Path) : outcome bool :=
  match stat p with
  | Returns (Dir _ _ _) => Returns true
  | Returns (File _) => Returns false
  | Raises e => if ignored e then Returns false else Raises e
  end.

(** [p.iterdir()], in directory order: [os.listdir] is called when the
    first entry is asked for, and needs the directory to be listable. *)
Definition iterdir (p : Path) : outcome (list Path) :=
  match stat p with
  | Returns (Dir true _ es) => Returns (map (fun e => child p (fst e)) es)
  | Returns (Dir false _ _) => Raises PermissionError
  | Returns (File _) => Raises NotADirectoryError
  | Raises e => Raises e
  end.

(** [open(p).read()], [None] when it raises. *)
Definition read_text (p : Path) : option str :=
  match stat p with
  | Returns (File t) => t
  | _ => None
  end.

(** ** run_cmd *)

Definition run_cmd (cmd : str) (cwd : option Path) : M str :=
  tick (Exec cmd cwd) ;;;
  match launch w cmd cwd with
  | Completed _ stdout _ => ret (strip stdout)
  | TimeoutExpired => ret (lit "[timeout]")
  | OtherError msg => ret (lit "[error: " ++ msg ++ lit "]")
  end.

(** ** get_ralph_status: Python's [None] is [JNone] *)

Definition get_ralph_status (spec_dir : Path) : M json :=
  tick (Call P_ralph_status (Some spec_dir)) ;;;
  let progress_file := spec_dir // ".ralph" // "progress.json" in
  found <- lift (exists_ progress_file) ;;      (* outside the [try] *)
  if negb found then ret JNone
  else
    match read_text progress_file with
    | Some text =>
        match json_loads w text with
        | Some v => ret v
        | None => ret JNone                     (* except: return None *)
        end
    | None => ret JNone                         (* except: return None *)
    end.

(** ** get_session_log *)

Definition get_session_log (spec_dir : Path) : M (list str) :=
  tick (Call P_session_log (Some spec_dir)) ;;;
  let log_file := spec_dir // ".ralph" // "session.log" in
  found <- lift (exists_ log_file) ;;           (* outside the [try] *)
  if negb found then ret []
  else
    match read_text log_file with
    | Some text => ret (last_n 10 (readlines text))
    | None => ret []                            (* except: return [] *)
    end.

(** ** get_git_info *)

(** The [while] loop that looks for the repository root; the test for
    ".git" can raise. *)
Equations? ascend (repo_root : Path) : outcome Path
  by wf (List.length repo_root) lt :=
  ascend repo_root with path_eq_dec repo_root (parent repo_root) => {
    | left _ => Returns repo_root ;
    | right _ =>
        match exists_ (repo_root // ".git") with
        | Returns true => Returns repo_root
        | Returns false => ascend (parent repo_root)
        | Raises e => Raises e
        end }.
Proof.
  destruct repo_root as [|c p] using rev_ind.
  - exfalso. auto.
  - unfold parent. rewrite removelast_last, length_app. simpl. lia.
Qed.

Definition get_git_info (spec_dir : Path) : M (option git_info) :=
  tick (Call P_git_info (Some spec_dir)) ;;;
  repo_root <- lift (ascend spec_dir) ;;
  found <- lift (exists_ (repo_root // ".git")) ;;
  if found then
    b <- run_cmd GIT_BRANCH (Some repo_root) ;;
    c <- run_cmd GIT_LOG (Some repo_root) ;;
    s <- run_cmd GIT_STATUS (Some repo_root) ;;
    ret (Some {| branch := b;
                 recent_commits := split_on NL c [];
                 status := s |})
  else ret None.

(** ** get_resource_usage *)

Definition get_resource_usage (spec_dir : Path) : M (dict str) :=
  tick (Call P_resource_usage (Some spec_dir)) ;;;
  let services_dir := parent (parent spec_dir) // "services" in
  found <- lift (exists_ services_dir) ;;
  if found then
    entries <- lift (iterdir services_dir) ;;
    for_each entries (fun service_dir resources =>
      d <- lift (is_dir service_dir) ;;
      if d then
        let nm_dir := service_dir // "node_modules" in
        nm <- lift (exists_ nm_dir) ;;
        if nm then
          out <- run_cmd (lit "du -sh '" ++ path_str nm_dir ++ lit "'") None ;;
          size <- index0 (split out) ;;
          ret (dict_set (name service_dir) size resources)
        else ret resources
      else ret resources) []
  else ret [].

(** ** check_docker_status *)

Definition check_docker_status : M (dict str) :=
  tick (Call P_docker_status None) ;;;
  result <- run_cmd DOCKER_PS None ;;
  if nonempty result && negb (startswith (lit "[") result)
  then ret (dict_set (lit "containers") result [])
  else ret (dict_set (lit "containers") DOCKER_UNAVAILABLE []).

(** ** check_system_deps *)

Definition check_system_deps : M (dict dep_info) :=
  tick (Call P_system_deps None) ;;;
  a <- run_cmd WHICH_TIMEOUT None ;;
  p <- run_cmd WHICH_TIMEOUT None ;;
  ret (dict_set (lit "timeout")
         {| available := negb (Py.eqb a []); path := p |} []).

(** ** scan_specs *)

(** [_PreciseSelector._select_from] for the last part of a pattern: the
    entry [pattern] of the directory [d] if it exists; a PermissionError is
    swallowed, any other exception leaves the generator. *)
Definition select_precise (d : Path) (pattern : str) : gen Path :=
  match exists_ (child d pattern) with
  | Returns true => ([child d pattern], None)
  | Returns false => ([], None)
  | Raises PermissionError => ([], None)
  | Raises e => ([], Some e)
  end.

(** [_RecursiveWildcardSelector._select_from] on the directory [here],
    whose node is [n]: [here] is a starting point of the successor before
    it is scanned, then come the directories among its entries, each in the
    same way.  A directory that [os.scandir] cannot list (PermissionError)
    is not descended into; any other exception leaves the generator.  The
    kind of an entry is read from the directory itself.  In a tree whose
    directories have entries of distinct names no path is yielded twice. *)
Fixpoint select_recursive (pattern : str) (here : Path) (n : node) : gen Path :=
  yield_from (select_precise here pattern)
    match n with
    | File _ => ([], None)
    | Dir _ _ es =>
        match iterdir here with
        | Returns _ =>
            fold_right
              (fun e rest =>
                 match snd e with
                 | Dir _ _ _ =>
                     yield_from
                       (select_recursive pattern (child here (fst e)) (snd e)) rest
                 | File _ => rest
                 end)
              ([], None) es
        | Raises PermissionError => ([], None)
        | Raises e => ([], Some e)
        end
    end.

(** [workspace.rglob(pattern)] for a literal name: [select_from] yields
    nothing unless [workspace] is a directory. *)
Definition rglob (workspace : Path) (pattern : str) : gen Path :=
  match is_dir workspace with
  | Returns true =>
      match stat workspace with
      | Returns n => select_recursive pattern workspace n
      | Raises _ => ([], None)
      end
  | Returns false => ([], None)
  | Raises e => ([], Some e)
  end.

(** [workspace] is [Path(workspace_path).expanduser().resolve()]. *)
Definition scan_specs (workspace : Path) : M (list Path) :=
  specs <- for_gen (rglob workspace (lit "specs")) (fun item specs =>
    d <- lift (is_dir item) ;;
    if d then
      children <- lift (iterdir item) ;;
      for_each children (fun spec_dir specs =>
        d' <- lift (is_dir spec_dir) ;;
        if d' then
          marker <- lift (exists_ (spec_dir // ".ralph")) ;;
          if marker then ret (specs ++ [spec_dir]) else ret specs
        else ret specs) specs
    else ret specs) [] ;;
  ret (sorted specs).

(** ** format_report *)

(** [v.get(...)] on the value read from progress.json. *)
Definition as_dict (v : json) : M (dict json) :=
  match v with
  | JDict d => ret d
  | _ => raise AttributeError
  end.

(** [len(v)]. *)
Definition py_len (v : json) : M nat :=
  match v with
  | JStr s => ret (List.length s)
  | JList l => ret (List.length l)
  | JDict d => ret (List.length d)
  | _ => raise TypeError
  end.

(** [str(v)], as an f-string formats it. *)
Definition py_str (v : json) : str :=
  match v with
  | JStr s => s
  | JNone => lit "None"
  | JBool true => lit "True"
  | JBool false => lit "False"
  | JInt n => str_of_Z n
  | JFloat _ text => text
  | _ => py_repr w v
  end.

(** Each block below returns the lines it appends to [lines]. *)

Definition progress_block (ralph_status : json) : M (list str) :=
  if truthy ralph_status then
    d <- as_dict ralph_status ;;
    let lines :=
      [ NL :: lit "**Ralph Progress:**";
        lit "- Status: `" ++ py_str (dict_get (lit "status") (JStr (lit "unknown")) d) ++ lit "`";
        lit "- Current Task: `"
          ++ py_str (dict_get (lit "current_task") (JStr (lit "none")) d) ++ lit "`" ] in
    n <- py_len (dict_get (lit "completed_tasks") (JList []) d) ;;
    let lines := lines ++ [lit "- Completed: " ++ str_of_nat n ++ lit " tasks"] in
    let lines :=
      if eq_str (dict_get (lit "status") JNone d) (lit "blocked")
      then lines ++ [lit "- " ++ NO_ENTRY_SIGN ++ lit " BLOCKED: "
                       ++ py_str (dict_get (lit "blocked_reason") (JStr (lit "unknown")) d)]
      else lines in
    lines <-
      (if truthy (dict_get (lit "failed_tasks") JNone d) then
         k <- py_len (dict_get (lit "failed_tasks") JNone d) ;;
         ret (lines ++ [lit "- Failed Tasks: " ++ str_of_nat k])
       else ret lines) ;;
    let last_update := dict_get (lit "last_updated") (JStr (lit "never")) d in
    ret (lines ++ [lit "- Last Updated: `" ++ py_str last_update ++ lit "`"])
  else ret [].

Definition SESSION_HEADER : str := NL :: lit "**Recent Session Activity:**".

Definition session_block (session_log : list str) (verbose : bool) : list str :=
  if nonempty session_log && verbose then
    SESSION_HEADER
      :: map (fun log_line => lit "  " ++ rstrip log_line) (last_n 5 session_log)
  else [].

Definition git_block (info : option git_info) : list str :=
  match info with
  | Some g =>
      [NL :: lit "**Git Status:**"]
      ++ (if nonempty (branch g)
          then [lit "- Branch: `" ++ branch g ++ lit "`"] else [])
      ++ (if nonempty (recent_commits g)
          then lit "- Recent Commits:"
                 :: map (fun commit => lit "  - " ++ rstrip commit)
                      (filter (fun commit => nonempty (strip commit))
                         (first_n 3 (recent_commits g)))
          else [])
      ++ (if nonempty (status g) && nonempty (status g)
          then [lit "- Uncommitted Changes:" ++ [NL] ++ lit "```" ++ [NL]
                  ++ status g ++ [NL] ++ lit "```"]
          else [])
  | None => []
  end.

Definition resources_block (resources : dict str) (verbose : bool) : list str :=
  if nonempty resources && verbose then
    (NL :: lit "**Disk Usage:**")
      :: map (fun kv => lit "- " ++ fst kv ++ lit ": " ++ snd kv) resources
  else [].

Definition section_title (spec_dir : Path) : str :=
  NL :: lit "### "
    ++ rel_str (relative_to spec_dir (parent (parent (parent spec_dir)))).

(** The body of the loop over [specs]. *)
Definition spec_section (spec_dir : Path) (verbose : bool) : M (list str) :=
  let title := section_title spec_dir in
  ralph_status <- get_ralph_status spec_dir ;;
  progress <- progress_block ralph_status ;;
  session_log <- get_session_log spec_dir ;;
  info <- get_git_info spec_dir ;;
  resources <- get_resource_usage spec_dir ;;
  ret ([title] ++ progress ++ session_block session_log verbose
         ++ git_block info ++ resources_block resources verbose).

(** The system-wide diagnostics, under [if verbose]. *)
Definition diagnostics : M (list str) :=
  docker_info <- check_docker_status ;;
  let lines :=
    [ NL :: lit "## System Diagnostics";
      NL :: lit "**Docker Status:**";
      lit "```" ++ [NL] ++ dict_get (lit "containers") (lit "N/A") docker_info
        ++ [NL] ++ lit "```" ] in
  deps <- check_system_deps ;;
  ret (lines ++ [NL :: lit "**System Dependencies:**"]
         ++ flat_map (fun kv =>
              let dep := fst kv in
              let info := snd kv in
              let status :=
                if available info then CHECK_MARK ++ lit " Available"
                else CROSS_MARK ++ lit " Missing" in
              (lit "- " ++ dep ++ lit ": " ++ status)
                :: (if nonempty (path info)
                    then [lit "  Path: `" ++ path info ++ lit "`"] else []))
            deps).

Definition header : list str :=
  [ lit "# Ralph Workspace Spec Checkup";
    NL :: lit "**Generated:** " ++ now w;
    lit "**Host:** " ++ nodename w;
    lit "**Python:** " ++ python_version w ].

Definition NO_SPECS : str :=
  NL :: WARNING_SIGN ++ lit " **No Ralph specs found in workspace**".

(** The list [lines] when [format_report] returns. *)
Definition report_lines (specs : list Path) (verbose : bool) : M (list str) :=
  let lines := header in
  if negb (nonempty specs) then ret (lines ++ [NO_SPECS])
  else
    let lines :=
      lines ++ [NL :: lit "## Found " ++ str_of_nat (List.length specs)
                  ++ lit " Ralph Spec(s)"] in
    lines <- for_each specs (fun spec_dir lines =>
               section <- spec_section spec_dir verbose ;;
               ret (lines ++ section)) lines ;;
    if verbose then
      diag <- diagnostics ;;
      ret (lines ++ diag)
    else ret lines.

Definition format_report (specs : list Path) (verbose : bool) : M str :=
  lines <- report_lines specs verbose ;;
  ret (join [NL] lines).

End Script.

(* ===================================================================== *)
(** * What the specification expects of discovery *)
(* ===================================================================== *)


(** A test that returned [True]. *)
Definition holds (o : outcome bool) : bool :=
  match o with
  | Returns true => true
  | _ => false
  end.


(** A well-formed tree: the names of the entries of a directory are
    pairwise distinct. *)
Fixpoint nodupb (l : list str) : bool :=
  match l with
  | [] => true
  | x :: l' => negb (existsb (Py.eqb x) l') && nodupb l'
  end.

Fixpoint wf_node (n : node) : bool :=
  match n with
  | File _ => true
  | Dir _ _ es => nodupb (map fst es) && forallb (fun e => wf_node (snd e)) es
  end.

(** The tree, whatever the access rights and the limits. *)
Fixpoint lookup (n : node) (p : Path) : option node :=
  match p with
  | [] => Some n
  | c :: p' =>
      match n with
      | Dir _ _ es =>
          match dict_find c es with
          | Some n' => lookup n' p'
          | None => None
          end
      | File _ => None
      end
  end.


(** A name that the system accepts. *)
Definition good_name (c : str) : bool := encodable c && (nbytes c <=? NAME_MAX)%N.

(** Nothing in the tree at [here] is out of reach of the script: every
    directory can be listed and searched, every name is accepted by the
    system, and every path, also with ".ralph" appended, is shorter than
    [PATH_MAX]. *)
Fixpoint within_reach (here : Path) (n : node) : bool :=
  (nbytes (path_str (here // ".ralph")) <? PATH_MAX)%N &&
  match n with
  | File _ => true
  | Dir listable searchable es =>
      listable && searchable
      && forallb (fun e => good_name (fst e)
                           && within_reach (child here (fst e)) (snd e)) es
  end.

(** The workspace can be reached, and nothing below it is out of reach; a
    workspace that does not exist is accessible too. *)
Definition accessible (w : World) (workspace : Path) : bool :=
  match stat w workspace with
  | Returns n => within_reach workspace n
  | Raises e => ignored e
  end.

(** The length in bytes of [str(p)], for a path [p] below the root. *)
Definition path_bytes (p : Path) : N :=
  fold_right (fun c n => (1 + nbytes c + n)%N) 0%N p.

(** An outcome of [os.stat] on which [exists()] and [is_dir()] return. *)
Definition quiet {A} (o : outcome A) : bool :=
  match o with
  | Returns _ => true
  | Raises e => ignored e
  end.

(** What one "specs" directory contributes to the result of [scan_specs]. *)
Definition found (w : World) (item : Path) : list Path :=
  match is_dir w item, iterdir w item with
  | Returns true, Returns children =>
      filter (fun spec_dir =>
                holds (is_dir w spec_dir) && holds (exists_ w (spec_dir // ".ralph")))
        children
  | _, _ => []
  end.

(* ===================================================================== *)
(** * What the specification says of the progress state *)
(* ===================================================================== *)

(** The values [len] accepts. *)
Definition has_len (v : json) : bool :=
  match v with
  | JStr _ | JList _ | JDict _ => true
  | _ => false
  end.

Definition BLOCKED_PREFIX : str := lit "- " ++ NO_ENTRY_SIGN ++ lit " BLOCKED: ".
Definition FAILED_PREFIX : str := lit "- Failed Tasks: ".

(** The progress file is absent, cannot be read, or does not parse as
    JSON. *)
Definition progress_unavailable (w : World) (spec_dir : Path) : Prop :=
  let progress_file := spec_dir // ".ralph" // "progress.json" in
  exists_ w progress_file = Returns false \/
  (exists_ w progress_file = Returns true /\ read_text w progress_file = None) \/
  exists text, read_text w progress_file = Some text /\ json_loads w text = None.

(** The object of the "blocked" scenario. *)
Definition BLOCKED_STATE : dict json :=
  [ (lit "status", JStr (lit "blocked"));
    (lit "current_task", JStr (lit "t3"));
    (lit "completed_tasks", JList [JStr (lit "t1"); JStr (lit "t2")]);
    (lit "blocked_reason", JStr (lit "awaiting approval"));
    (lit "last_updated", JStr (lit "2024-01-01T00:00:00Z")) ].

(** A JSON string literal, and the text of that object as the
    specification writes it. *)
Definition quoted (s : string) : str := [34%N] ++ lit s ++ [34%N].

Definition BLOCKED_TEXT : str :=
  lit "{" ++ quoted "status" ++ lit ":" ++ quoted "blocked" ++ lit ","
    ++ quoted "current_task" ++ lit ":" ++ quoted "t3" ++ lit ","
    ++ quoted "completed_tasks" ++ lit ":[" ++ quoted "t1" ++ lit ","
    ++ quoted "t2" ++ lit "],"
    ++ quoted "blocked_reason" ++ lit ":" ++ quoted "awaiting approval" ++ lit ","
    ++ quoted "last_updated" ++ lit ":" ++ quoted "2024-01-01T00:00:00Z" ++ lit "}".

(* ===================================================================== *)
(** * What the specification says of a run *)
(* ===================================================================== *)

(** Two worlds in which every probe observes the same: they may differ in
    the reading of the clock only. *)
Definition same_observations (w1 w2 : World) : Prop :=
  fs w1 = fs w2 /\
  (forall cmd cwd, launch w1 cmd cwd = launch w2 cmd cwd) /\
  (forall text, json_loads w1 text = json_loads w2 text) /\
  (forall v, py_repr w1 v = py_repr w2 v) /\
  nodename w1 = nodename w2 /\
  python_version w1 = python_version w2.

(** The text of a report up to the reading of the clock. *)
Definition GENERATED_PREFIX : str :=
  lit "# Ralph Workspace Spec Checkup" ++ [NL] ++ NL :: lit "**Generated:** ".

(** The line that counts the specs. *)
Definition count_line (n : nat) : str :=
  NL :: lit "## Found " ++ str_of_nat n ++ lit " Ralph Spec(s)".

(** The lines of the report below its header. *)
Definition report_body (w : World) (specs : list Path) (verbose : bool)
  : M (list str) :=
  if negb (nonempty specs) then ret [NO_SPECS]
  else
    lines <- for_each specs (fun spec_dir lines =>
               section <- spec_section w spec_dir verbose ;;
               ret (lines ++ section)) [count_line (List.length specs)] ;;
    if verbose then
      diag <- diagnostics w ;;
      ret (lines ++ diag)
    else ret lines.

Definition probe_eqb (p q : probe) : bool :=
  match p, q with
  | P_ralph_status, P_ralph_status | P_session_log, P_session_log
  | P_git_info, P_git_info | P_resource_usage, P_resource_usage
  | P_docker_status, P_docker_status | P_system_deps, P_system_deps => true
  | _, _ => false
  end.

(** How often a probe was entered, and how often a command was executed. *)
Definition runs (p : probe) (t : list event) : nat :=
  List.length (filter (fun ev => match ev with
                                 | Call q _ => probe_eqb p q
                                 | Exec _ _ => false
                                 end) t).

Definition execs (cmd : str) (t : list event) : nat :=
  List.length (filter (fun ev => match ev with
                                 | Exec c _ => Py.eqb cmd c
                                 | Call _ _ => false
                                 end) t).

(** The events of the per-spec part of a run: a per-spec probe entered for
    a spec directory, or a command other than the two of the workspace-wide
    probes. *)
Definition per_spec_event (ev : event) : bool :=
  match ev with
  | Call P_docker_status _ | Call P_system_deps _ => false
  | Call _ (Some _) => true
  | Call _ None => false
  | Exec cmd _ => negb (Py.eqb DOCKER_PS cmd) && negb (Py.eqb WHICH_TIMEOUT cmd)
  end.

(** The events of the workspace-wide diagnostics. *)
Definition DIAGNOSTICS_TRACE : list event :=
  [ Call P_docker_status None; Exec DOCKER_PS None;
    Call P_system_deps None; Exec WHICH_TIMEOUT None; Exec WHICH_TIMEOUT None ].

(* ===================================================================== *)
(** * The entry point *)
(* ===================================================================== *)





(* ===================================================================== *)
(** * Names for parts of the probes *)
(* ===================================================================== *)

(** The expression [run_cmd(f"du -sh '{nm_dir}'").split()[0]] of
    [get_resource_usage]. *)
Definition du_size (w : World) (nm_dir : Path) : M str :=
  out <- run_cmd w (lit "du -sh '" ++ path_str nm_dir ++ lit "'") None ;;
  index0 (split out).

(** The two tests that [get_resource_usage] makes on an entry of the
    services directory; the second is made when the first gave [True]. *)
Definition has_node_modules (w : World) (service_dir : Path) : outcome bool :=
  match is_dir w service_dir with
  | Returns true => exists_ w (service_dir // "node_modules")
  | o => o
  end.

Definition services_of (spec_dir : Path) : Path :=
  parent (parent spec_dir) // "services".

(** The size recorded for a service whose [du] gave a field. *)
Definition size_of (w : World) (service_dir : Path) : str :=
  match value (du_size w (service_dir // "node_modules")) with
  | Returns size => size
  | Raises _ => []
  end.

(** One turn of the loop of [get_resource_usage]. *)
Definition keep_service (w : World) (service_dir : Path) (resources : dict str)
  : M (dict str) :=
  kept <- lift (has_node_modules w service_dir) ;;
  if kept then
    size <- du_size w (service_dir // "node_modules") ;;
    ret (dict_set (name service_dir) size resources)
  else ret resources.

(** The turn of the loop for [service_dir] raises [e]: one of its tests
    does, or [du] gives no field. *)
Definition turn_raises (w : World) (service_dir : Path) (e : exn) : Prop :=
  has_node_modules w service_dir = Raises e \/
  (has_node_modules w service_dir = Returns true /\
   value (du_size w (service_dir // "node_modules")) = Raises e).

(** A string of white space only (the empty string included). *)
Definition blank (s : str) : bool := forallb isspace s.

(** Two computations with the same trace that raise the same exceptions. *)
Definition same_effects {A B} (m1 : M A) (m2 : M B) : Prop :=
  trace m1 = trace m2 /\ forall e, value m1 = Raises e <-> value m2 = Raises e.

(* ===================================================================== *)
(** * Concrete worlds used by the examples *)
(* ===================================================================== *)

Module Examples.

Definition dir (n : string) (es : list (str * node)) : str * node :=
  (lit n, Dir true true es).
Definition file (n : string) (text : string) : str * node :=
  (lit n, File (Some (lit text))).

(** A directory that the script can neither list nor search. *)
Definition locked (n : string) (es : list (str * node)) : str * node :=
  (lit n, Dir false false es).

Definition world_of (tree : node) (run : str -> option Path -> launch_result)
    (loads : str -> option json) (clock : str) : World :=
  {| fs := tree; launch := run; json_loads := loads;
     py_repr := fun _ => lit "<repr>";
     now := clock; nodename := lit "devbox"; python_version := lit "3.11.4";
     write_text := fun _ _ => None |}.

Definition no_json : str -> option json := fun _ => None.
Definition clock0 : str := lit "2024-01-01 00:00:00".
Definition clock1 : str := lit "2024-01-01 00:00:01".

(** Every command completes with status 1 after printing "partial". *)
Definition exit1_world : World :=
  world_of (Dir true true [])
    (fun _ _ => Completed 1 (lit "partial" ++ [NL]) (lit "boom")) no_json clock0.

(** Every command times out. *)
Definition timeout_world : World :=
  world_of (Dir true true []) (fun _ _ => TimeoutExpired) no_json clock0.

(** [docker ps] prints a table whose first container is named "[db]". *)
Definition bracket_world : World :=
  world_of (Dir true true [])
    (fun _ _ => Completed 0 (lit "[db]   Up 2 hours   0B" ++ [NL]) []) no_json clock0.

Definition ws : Path := [lit "ws"].
Definition spec_a : Path := [lit "ws"; lit "specs"; lit "a"].
Definition spec_b : Path := [lit "ws"; lit "specs"; lit "b"].
Definition spec_d : Path := [lit "ws"; lit "pkg"; lit "specs"; lit "d"].

(** A workspace with two "specs" directories, no repository and no
    services: [a] and [d] hold a ".ralph" directory, [b] a plain file of
    that name, [c] nothing. *)
Definition bare_tree : node :=
  Dir true true [ dir "ws"
          [ dir "pkg" [ dir "specs" [ dir "d" [ dir ".ralph" [] ] ] ];
            dir "specs"
              [ dir "c" [];
                dir "b" [ (lit ".ralph", File (Some [])) ];
                file "notes.txt" "todo";
                dir "a" [ dir ".ralph" [] ] ] ] ].

Definition bare_world : World :=
  world_of bare_tree (fun _ _ => Completed 1 [] []) no_json clock0.

(** One spec whose progress file holds the "blocked" object and that has
    no session log; the workspace is a git repository. *)
Definition blocked_tree : node :=
  Dir true true [ dir "ws"
          [ dir ".git" [];
            dir "specs"
              [ dir "a"
                  [ dir ".ralph"
                      [ (lit "progress.json", File (Some BLOCKED_TEXT)) ] ] ] ] ].

Definition git_run (cmd : str) (cwd : option Path) : launch_result :=
  if Py.eqb cmd GIT_BRANCH then Completed 0 (lit "main" ++ [NL]) []
  else if Py.eqb cmd GIT_LOG then
    Completed 0 (lit "1a2b3c4 add parser" ++ [NL]
                   ++ lit "5d6e7f8 initial import" ++ [NL]) []
  else if Py.eqb cmd GIT_STATUS then Completed 0 [] []
  else Completed 127 [] (lit "not found").

Definition blocked_loads (text : str) : option json :=
  if Py.eqb text BLOCKED_TEXT then Some (JDict BLOCKED_STATE) else None.

Definition blocked_world : World :=
  world_of blocked_tree git_run blocked_loads clock0.

(** The same world one second later. *)
Definition blocked_world_later : World :=
  world_of blocked_tree git_run blocked_loads clock1.

(** One spec whose progress file holds the empty object. *)
Definition empty_object_tree : node :=
  Dir true true [ dir "ws"
          [ dir "specs"
              [ dir "a" [ dir ".ralph" [ file "progress.json" "{}" ] ] ] ] ].

Definition empty_object_world : World :=
  world_of empty_object_tree (fun _ _ => Completed 1 [] [])
    (fun text => if Py.eqb text (lit "{}") then Some (JDict []) else None)
    clock0.

(** Two specs beside a "services" directory whose one service holds a
    "node_modules" folder; [du] exits with status 1 and prints nothing
    on its standard output. *)
Definition services_tree : node :=
  Dir true true [ dir "ws"
          [ dir "services" [ dir "api" [ dir "node_modules" [] ] ];
            dir "specs"
              [ dir "a" [ dir ".ralph" [] ];
                dir "b" [ dir ".ralph" [] ] ] ] ].

Definition du_fails_world : World :=
  world_of services_tree
    (fun cmd _ =>
       if startswith (lit "du ") cmd
       then Completed 1 [] (lit "du: cannot access")
       else Completed 0 [] [])
    no_json clock0.

(** One spec with a session log of seven lines. *)
Definition seven_lines : str :=
  lit "l1" ++ [NL] ++ lit "l2" ++ [NL] ++ lit "l3  " ++ [NL] ++ lit "l4" ++ [NL]
    ++ lit "l5" ++ [NL] ++ lit "l6" ++ [NL] ++ lit "l7" ++ [NL].

Definition logged_tree : node :=
  Dir true true [ dir "ws"
          [ dir "specs"
              [ dir "a"
                  [ dir ".ralph"
                      [ (lit "session.log", File (Some seven_lines)) ] ] ] ] ].

Definition logged_world : World :=
  world_of logged_tree (fun _ _ => Completed 1 [] []) no_json clock0.

(** One spec beside three entries of "services": a service with
    "node_modules", one without, and a plain file; [du] prints a size. *)
Definition measured_tree : node :=
  Dir true true [ dir "ws"
          [ dir "services"
              [ dir "web" [];
                dir "api" [ dir "node_modules" [] ];
                file "README" "services" ];
            dir "specs" [ dir "a" [ dir ".ralph" [] ] ] ] ].

Definition measured_world : World :=
  world_of measured_tree
    (fun cmd _ =>
       if startswith (lit "du ") cmd
       then Completed 0 (lit "12M" ++ [9%N] ++ lit "/ws/services/api/node_modules"
                           ++ [NL]) []
       else Completed 1 [] [])
    no_json clock0.



(** A workspace with a spec in "pkg/specs" beside a "specs" directory that
    cannot be listed. *)
Definition guarded_tree : node :=
  Dir true true
    [ dir "ws"
        [ dir "pkg" [ dir "specs" [ dir "d" [ dir ".ralph" [] ] ] ];
          dir "vault" [ locked "specs" [ dir "e" [ dir ".ralph" [] ] ] ] ] ].

Definition guarded_world : World :=
  world_of guarded_tree (fun _ _ => Completed 1 [] []) no_json clock0.

(** Two specs; the progress file of the first holds the JSON list [1]. *)
Definition list_tree : node :=
  Dir true true
    [ dir "ws"
        [ dir "specs"
            [ dir "a" [ dir ".ralph" [ file "progress.json" "[1]" ] ];
              dir "b" [ dir ".ralph" [] ] ] ] ].

Definition list_world : World :=
  world_of list_tree (fun _ _ => Completed 1 [] [])
    (fun text => if Py.eqb text (lit "[1]") then Some (JList [JInt 1]) else None)
    clock0.

(** Two specs; the ".ralph" directory of the first cannot be searched. *)
Definition sealed_tree : node :=
  Dir true true
    [ dir "ws"
        [ dir "specs"
            [ dir "a" [ locked ".ralph" [ file "progress.json" "{}" ] ];
              dir "b" [ dir ".ralph" [] ] ] ] ].

Definition sealed_world : World :=
  world_of sealed_tree (fun _ _ => Completed 1 [] []) no_json clock0.




End Examples.

(* ===================================================================== *)
(** * The monad *)
(* ===================================================================== *)

Lemma bind_ret_l A B (a : A) (k : A -> M B) : bind (ret a) k = k a.
Proof. unfold bind, ret. destruct (k a). reflexivity. Qed.

Lemma bind_returns A B (m : M A) (k : A -> M B) a t :
  m = (Returns a, t) -> bind m k = (value (k a), t ++ trace (k a)).
Proof. intros ->. unfold bind, value, trace. destruct (k a). reflexivity. Qed.

Lemma bind_raises A B (m : M A) (k : A -> M B) e t :
  m = (Raises e, t) -> bind m k = (Raises e, t).
Proof. intros ->. reflexivity. Qed.


Lemma bind_lift_returns A B (a : A) (k : A -> M B) : bind (lift (Returns a)) k = k a.
Proof. apply bind_ret_l. Qed.

Lemma bind_lift_raises A B e (k : A -> M B) :
  bind (lift (Raises e)) k = (Raises e, []).
Proof. reflexivity. Qed.

Lemma bind_tick A ev (m : M A) : (tick ev ;;; m) = (value m, ev :: trace m).
Proof. unfold bind, tick. destruct m. reflexivity. Qed.

Lemma bind_assoc A B C (m : M A) (f : A -> M B) (g : B -> M C) :
  bind (bind m f) g = bind m (fun a => bind (f a) g).
Proof.
  destruct m as [[a|e] t]; [|reflexivity]. unfold bind.
  destruct (f a) as [[b|e] t1]; [|reflexivity].
  destruct (g b) as [o t2]. now rewrite app_assoc.
Qed.

Lemma bind_ext A B (m1 m2 : M A) (k1 k2 : A -> M B) :
  m1 = m2 -> (forall a, k1 a = k2 a) -> bind m1 k1 = bind m2 k2.
Proof. intros -> H. destruct m2 as [[a|e] t]; simpl; [now rewrite H | reflexivity]. Qed.

Lemma for_each_ext A S (l : list A) (b1 b2 : A -> S -> M S) :
  (forall x s, b1 x s = b2 x s) -> forall s, for_each l b1 s = for_each l b2 s.
Proof.
  intros H. induction l as [|x l IH]; intros s; simpl; [reflexivity|].
  apply bind_ext; auto.
Qed.

(* ===================================================================== *)
(** * The Python primitives on small inputs *)
(* ===================================================================== *)

Example strip_example : strip (lit "  a b " ++ [NL]) = lit "a b".
Proof. reflexivity. Qed.

Example split_example :
  split ([9%N] ++ lit "12M" ++ [9%N] ++ lit "/ws/x" ++ [NL]) = [lit "12M"; lit "/ws/x"].
Proof. reflexivity. Qed.

Example split_empty_example : split [] = [].
Proof. reflexivity. Qed.

Example split_on_example :
  split_on NL (lit "a" ++ [NL] ++ lit "b" ++ [NL]) [] = [lit "a"; lit "b"; []].
Proof. reflexivity. Qed.

Example readlines_example :
  readlines (lit "one" ++ [13%N; NL] ++ lit "two")
    = [lit "one" ++ [NL]; lit "two"].
Proof. reflexivity. Qed.

Example last_n_example : last_n 2 [1; 2; 3] = [2; 3] /\ last_n 5 [1; 2] = [1; 2].
Proof. split; reflexivity. Qed.

Example str_of_nat_example : str_of_nat 120 = lit "120".
Proof. reflexivity. Qed.

Example relative_to_example :
  rel_str (relative_to Examples.spec_d (parent (parent (parent Examples.spec_d))))
    = lit "pkg/specs/d".
Proof. reflexivity. Qed.

Example run_cmd_timeout_example :
  run_cmd Examples.timeout_world (lit "sleep 10") None
    = (Returns (lit "[timeout]"), [Exec (lit "sleep 10") None]).
Proof. reflexivity. Qed.

(* ===================================================================== *)
(** * run_cmd and the two workspace-wide probes *)
(* ===================================================================== *)

Lemma run_cmd_eq w cmd cwd :
  run_cmd w cmd cwd =
  (Returns match launch w cmd cwd with
           | Completed _ stdout _ => strip stdout
           | TimeoutExpired => lit "[timeout]"
           | OtherError msg => lit "[error: " ++ msg ++ lit "]"
           end, [Exec cmd cwd]).
Proof. unfold run_cmd. destruct (launch w cmd cwd); reflexivity. Qed.

(** C1 (as amended).  [run_cmd] never raises and executes the command once.
    When the subprocess completes, with whatever exit status (a missing
    binary is exit status 127 of the shell), it returns the trimmed
    standard output; on a timeout it returns "[timeout]"; on any other
    exception of [subprocess.run] it returns "[error: <message>]".  Both
    sentinels start with "[". *)
Theorem run_cmd_never_raises w cmd cwd :
  exists s,
    run_cmd w cmd cwd = (Returns s, [Exec cmd cwd]) /\
    match launch w cmd cwd with
    | Completed _ stdout _ => s = strip stdout
    | TimeoutExpired => s = lit "[timeout]"
    | OtherError msg =>
        s = lit "[error: " ++ msg ++ lit "]" /\ startswith (lit "[") s = true
    end.
Proof.
  rewrite run_cmd_eq. eexists. split; [reflexivity|].
  destruct (launch w cmd cwd); auto.
Qed.

(** C1 as stated fails: a command that exits with status 1 after printing
    "partial" yields the plain output "partial", which is no sentinel. *)
Lemma run_cmd_nonzero_exit_returns_output :
  launch Examples.exit1_world (lit "make check") None
    = Completed 1 (lit "partial" ++ [NL]) (lit "boom") /\
  run_cmd Examples.exit1_world (lit "make check") None
    = (Returns (lit "partial"), [Exec (lit "make check") None]) /\
  startswith (lit "[") (lit "partial") = false.
Proof. repeat split. Qed.

(** C9.  [check_docker_status] records the placeholder exactly when the
    string returned by [run_cmd] is empty or starts with "[", and records
    that string verbatim otherwise; so a listing that completes normally
    but whose trimmed output starts with "[" is reported as unavailable. *)
Theorem check_docker_status_placeholder w :
  exists result,
    value (run_cmd w DOCKER_PS None) = Returns result /\
    check_docker_status w
      = (Returns [(lit "containers",
                   if Py.eqb result [] || startswith (lit "[") result
                   then DOCKER_UNAVAILABLE else result)],
         [Call P_docker_status None; Exec DOCKER_PS None]) /\
    (forall rc out err,
        launch w DOCKER_PS None = Completed rc out err ->
        startswith (lit "[") (strip out) = true ->
        value (check_docker_status w)
          = Returns [(lit "containers", DOCKER_UNAVAILABLE)]).
Proof.
  unfold check_docker_status. rewrite run_cmd_eq.
  eexists. split; [reflexivity|]. split.
  - set (r := match launch w DOCKER_PS None with
              | Completed _ o _ => strip o | TimeoutExpired => _ | OtherError m => _ end).
    cbn -[DOCKER_PS DOCKER_UNAVAILABLE lit].
    destruct r as [|c r]; [reflexivity|].
    change (Py.eqb (c :: r) []) with false. change (nonempty (c :: r)) with true.
    destruct (startswith (lit "[") (c :: r)); reflexivity.
  - intros rc out err -> Hs. cbn -[DOCKER_PS DOCKER_UNAVAILABLE lit strip].
    destruct (strip out) as [|c r]; [discriminate|].
    rewrite Hs. reflexivity.
Qed.

Lemma check_docker_status_placeholder_witness :
  value (check_docker_status Examples.bracket_world)
    = Returns [(lit "containers", DOCKER_UNAVAILABLE)].
Proof.
  destruct (check_docker_status_placeholder Examples.bracket_world)
    as (result & _ & _ & H).
  apply (H 0%Z (lit "[db]   Up 2 hours   0B" ++ [NL]) []); reflexivity.
Defined.

(* ===================================================================== *)
(** * get_git_info: the ascent to the repository root *)
(* ===================================================================== *)

Lemma parent_snoc (p : Path) c : parent (p ++ [c]) = p.
Proof. unfold parent. apply removelast_last. Qed.

Lemma ascend_root w : ascend w [] = Returns [].
Proof. rewrite ascend_equation_1. reflexivity. Qed.

(** One turn of the loop, from a directory below the root. *)
Lemma ascend_snoc w p c :
  ascend w (p ++ [c]) =
  match exists_ w ((p ++ [c]) // ".git") with
  | Returns true => Returns (p ++ [c])
  | Returns false => ascend w p
  | Raises e => Raises e
  end.
Proof.
  rewrite ascend_equation_1.
  destruct (path_eq_dec (p ++ [c]) (parent (p ++ [c]))) as [E|E].
  - exfalso. pose proof (f_equal (@List.length _) E) as L.
    rewrite parent_snoc, length_app in L. simpl in L. lia.
  - simpl. rewrite parent_snoc. reflexivity.
Qed.

Lemma firstn_snoc_below A (p : list A) c j :
  j <= List.length p -> firstn j (p ++ [c]) = firstn j p.
Proof.
  intros H. rewrite firstn_app. replace (j - List.length p) with 0 by lia.
  simpl. apply app_nil_r.
Qed.

Lemma firstn_snoc_all A (p : list A) c :
  firstn (List.length p + 1) (p ++ [c]) = p ++ [c].
Proof. apply firstn_all2. rewrite length_app. simpl. lia. Qed.

(** The loop stops at an ancestor [firstn k spec_dir] of the directory it
    starts from: the nearest one that holds ".git", or the root; or it
    raises what the test for ".git" raises there.  Nearer ancestors were
    tested and hold no ".git". *)
Lemma ascend_spec w spec_dir :
  exists k,
    k <= List.length spec_dir /\
    ((ascend w spec_dir = Returns (firstn k spec_dir) /\
      (exists_ w (firstn k spec_dir // ".git") = Returns true \/ k = 0)) \/
     (exists e, 0 < k /\
                exists_ w (firstn k spec_dir // ".git") = Raises e /\
                ascend w spec_dir = Raises e)) /\
    (forall j, k < j <= List.length spec_dir ->
               exists_ w (firstn j spec_dir // ".git") = Returns false).
Proof.
  induction spec_dir as [|c p IH] using rev_ind.
  - exists 0. rewrite ascend_root. repeat split; auto. simpl. lia.
  - rewrite ascend_snoc, length_app. simpl List.length.
    destruct (exists_ w ((p ++ [c]) // ".git")) as [[|]|e] eqn:G.
    + exists (List.length p + 1). rewrite firstn_snoc_all.
      split; [lia|]. split; [left; auto | intros j Hj; lia].
    + destruct IH as (k & Hk & Hstop & Hnear).
      exists k. rewrite (firstn_snoc_below _ _ Hk).
      split; [lia|]. split; [exact Hstop|].
      intros j Hj. destruct (Nat.eq_dec j (List.length p + 1)) as [->|Hne].
      * rewrite firstn_snoc_all. exact G.
      * rewrite firstn_snoc_below by lia. apply Hnear. lia.
    + exists (List.length p + 1). rewrite firstn_snoc_all.
      split; [lia|]. split; [|intros j Hj; lia].
      right. exists e. repeat split; auto. lia.
Qed.



(* ===================================================================== *)
(** * The order on paths and [sorted] *)
(* ===================================================================== *)

Section Lex.

Variable A : Type.
Variable cmp : A -> A -> comparison.
Hypothesis cmp_eq : forall x y, cmp x y = Eq -> x = y.
Hypothesis cmp_antisym : forall x y, cmp y x = CompOpp (cmp x y).
Hypothesis cmp_lt_trans : forall x y z, cmp x y = Lt -> cmp y z = Lt -> cmp x z = Lt.



Lemma cmp_refl x : cmp x x = Eq.
Proof.
  pose proof (cmp_antisym x x) as H. destruct (cmp x x); simpl in H; congruence.
Qed.


End Lex.














(* ===================================================================== *)
(** * The filesystem and scan_specs *)
(* ===================================================================== *)

Lemma str_eqb_eq a : forall b, Py.eqb a b = true <-> a = b.
Proof.
  induction a as [|x a IH]; intros [|y b]; simpl; split; try congruence.
  - intros H. apply andb_prop in H as [H1 H2].
    apply N.eqb_eq in H1. apply IH in H2. congruence.
  - intros [= -> ->]. apply andb_true_intro. split.
    + apply N.eqb_refl.
    + now apply IH.
Qed.

Lemma str_eqb_refl a : Py.eqb a a = true.
Proof. now apply str_eqb_eq. Qed.

Lemma dict_find_In V k (d : dict V) v : dict_find k d = Some v -> In (k, v) d.
Proof.
  induction d as [|[k' v'] d IH]; simpl; [discriminate|].
  destruct (Py.eqb k k') eqn:E.
  - apply str_eqb_eq in E. intros [= ->]. left. congruence.
  - auto.
Qed.

(** ** Lengths in bytes *)

Lemma nbytes_app a b : nbytes (a ++ b) = (nbytes a + nbytes b)%N.
Proof.
  induction a as [|c a IH]; [reflexivity|].
  change (nbytes ((c :: a) ++ b)) with (utf8_len c + nbytes (a ++ b))%N.
  change (nbytes (c :: a)) with (utf8_len c + nbytes a)%N.
  rewrite IH. lia.
Qed.

Lemma join_slash_bytes c p :
  nbytes (join (lit "/") (c :: p)) = (nbytes c + path_bytes p)%N.
Proof.
  revert c. induction p as [|d p IH]; intros c.
  - cbn [join path_bytes fold_right]. lia.
  - change (join (lit "/") (c :: d :: p))
      with (c ++ lit "/" ++ join (lit "/") (d :: p)).
    rewrite !nbytes_app, IH.
    change (path_bytes (d :: p)) with (1 + nbytes d + path_bytes p)%N.
    change (nbytes (lit "/")) with 1%N. lia.
Qed.

Lemma path_str_bytes p :
  nbytes (path_str p) = match p with [] => 1%N | _ => path_bytes p end.
Proof.
  destruct p as [|c p]; [reflexivity|].
  unfold path_str. rewrite nbytes_app, join_slash_bytes.
  change (path_bytes (c :: p)) with (1 + nbytes c + path_bytes p)%N.
  change (nbytes (lit "/")) with 1%N. lia.
Qed.

Lemma path_bytes_app a b : path_bytes (a ++ b) = (path_bytes a + path_bytes b)%N.
Proof.
  induction a as [|c a IH]; [reflexivity|].
  change (path_bytes ((c :: a) ++ b)) with (1 + nbytes c + path_bytes (a ++ b))%N.
  change (path_bytes (c :: a)) with (1 + nbytes c + path_bytes a)%N.
  rewrite IH. lia.
Qed.

Lemma path_bytes_firstn j p : (path_bytes (firstn j p) <= path_bytes p)%N.
Proof.
  rewrite <- (firstn_skipn j p) at 2. rewrite path_bytes_app. lia.
Qed.

(** A path that is no longer than one the system accepts is accepted. *)
Lemma path_max_le p q :
  q <> [] -> (path_bytes p <= path_bytes q)%N ->
  (PATH_MAX <=? nbytes (path_str q))%N = false ->
  (PATH_MAX <=? nbytes (path_str p))%N = false.
Proof.
  rewrite !path_str_bytes, !N.leb_gt. intros Hq Hle Hlt.
  destruct q as [|c q]; [congruence|]. destruct p; [reflexivity | lia].
Qed.

Lemma forallb_firstn A (f : A -> bool) j l :
  forallb f l = true -> forallb f (firstn j l) = true.
Proof.
  rewrite <- (firstn_skipn j l) at 1. rewrite forallb_app.
  intros H. now apply andb_prop in H.
Qed.

(** ** Path resolution *)

Lemma resolve_app a : forall n b,
  resolve n (a ++ b) =
  match resolve n a with
  | Returns m => resolve m b
  | Raises e => Raises e
  end.
Proof.
  induction a as [|c a IH]; intros n b; simpl; [reflexivity|].
  destruct n as [t|r x es]; [reflexivity|].
  destruct x; simpl; [|reflexivity].
  destruct (NAME_MAX <? nbytes c)%N; [reflexivity|].
  destruct (dict_find c es); [apply IH | reflexivity].
Qed.

Lemma resolve_lookup p : forall n m, resolve n p = Returns m -> lookup n p = Some m.
Proof.
  induction p as [|c p IH]; intros n m; simpl.
  - now intros [= ->].
  - destruct n as [t|r x es]; [discriminate|].
    destruct x; simpl; [|discriminate].
    destruct (NAME_MAX <? nbytes c)%N; [discriminate|].
    destruct (dict_find c es); [apply IH | discriminate].
Qed.

(** When the resolution of a path neither stops at a directory that cannot
    be searched nor at a name that is too long, neither does the
    resolution of a short name in a directory the path runs through. *)
Lemma resolve_prefix_quiet c p : forall n q,
  q <> [] -> (nbytes c <=? NAME_MAX)%N = true ->
  quiet (resolve n (p ++ q)) = true -> quiet (resolve n (p ++ [c])) = true.
Proof.
  intros n q Hq Hc. rewrite !resolve_app.
  destruct (resolve n p) as [m|e]; [|auto].
  destruct q as [|d q]; [congruence|]. simpl.
  destruct m as [t|r x es]; [reflexivity|].
  destruct x; simpl; [|discriminate].
  replace (NAME_MAX <? nbytes c)%N with false
    by (symmetry; apply N.ltb_ge; now apply N.leb_le).
  intros _. destruct (dict_find c es); reflexivity.
Qed.

Lemma stat_returns w p n :
  stat w p = Returns n ->
  forallb encodable p = true /\
  (PATH_MAX <=? nbytes (path_str p))%N = false /\
  resolve (fs w) p = Returns n.
Proof.
  unfold stat. destruct (forallb encodable p); simpl; [|discriminate].
  destruct (PATH_MAX <=? nbytes (path_str p))%N; [discriminate|]. auto.
Qed.

Lemma stat_resolve w p :
  forallb encodable p = true ->
  (PATH_MAX <=? nbytes (path_str p))%N = false ->
  stat w p = resolve (fs w) p.
Proof. unfold stat. now intros -> ->. Qed.


Lemma exists_returns w p b :
  exists_ w p = Returns b -> quiet (stat w p) = true.
Proof.
  unfold exists_. destruct (stat w p) as [n|e]; [reflexivity|].
  simpl. now destruct (ignored e).
Qed.

Lemma quiet_exists w p :
  quiet (stat w p) = true ->
  exists_ w p = Returns match stat w p with Returns _ => true | Raises _ => false end.
Proof.
  unfold exists_. destruct (stat w p) as [n|e]; [reflexivity|].
  simpl. now intros ->.
Qed.

(** [exists()] returns on a short name in any directory that a path runs
    through on which [os.stat] returned or failed with an ignored error
    other than ValueError. *)
Lemma stat_prefix_quiet w c p q :
  q <> [] -> good_name c = true ->
  (path_bytes [c] <= path_bytes q)%N ->
  forallb encodable (p ++ q) = true ->
  quiet (stat w (p ++ q)) = true ->
  quiet (stat w (p ++ [c])) = true.
Proof.
  intros Hq Hc Hlen Henc Hquiet.
  apply andb_prop in Hc as [Hc1 Hc2].
  assert (Hl : (PATH_MAX <=? nbytes (path_str (p ++ q)))%N = false).
  { unfold stat in Hquiet. rewrite Henc in Hquiet. simpl in Hquiet.
    destruct (PATH_MAX <=? nbytes (path_str (p ++ q)))%N; [discriminate|reflexivity]. }
  rewrite (stat_resolve w _ Henc Hl) in Hquiet.
  rewrite forallb_app in Henc. apply andb_prop in Henc as [Hp _].
  rewrite stat_resolve.
  - eapply resolve_prefix_quiet; eauto.
  - rewrite forallb_app, Hp. simpl. now rewrite Hc1.
  - apply (@path_max_le _ (p ++ q)); auto.
    + destruct p; [exact Hq | discriminate].
    + rewrite !path_bytes_app. lia.
Qed.

(** ** The tree *)








Lemma nodupb_NoDup l : nodupb l = true -> NoDup l.
Proof.
  induction l as [|x l IH]; simpl; [constructor|].
  intros H. apply andb_prop in H as [Hx Hl]. constructor; [|auto].
  intros Hin. apply negb_true_iff in Hx.
  assert (existsb (Py.eqb x) l = true); [|congruence].
  apply existsb_exists. exists x. split; [exact Hin | apply str_eqb_refl].
Qed.

Lemma wf_lookup p : forall n m,
  wf_node n = true -> lookup n p = Some m -> wf_node m = true.
Proof.
  induction p as [|c p IH]; intros n m Hwf; simpl.
  - now intros [= <-].
  - destruct n as [t|r x es]; [discriminate|].
    destruct (dict_find c es) as [n'|] eqn:F; [|discriminate].
    apply IH. simpl in Hwf. apply andb_prop in Hwf as [_ Hall].
    rewrite forallb_forall in Hall. apply (Hall (c, n')). now apply dict_find_In.
Qed.

Lemma wf_names r x es : wf_node (Dir r x es) = true -> NoDup (map fst es).
Proof. simpl. intros H. apply andb_prop in H as [H _]. now apply nodupb_NoDup. Qed.






(** ** What is within reach *)





Section Reach.

Variable w : World.
Variables (workspace : Path) (n : node).
Hypothesis Hstat : stat w workspace = Returns n.
Hypothesis Hreach : within_reach workspace n = true.







End Reach.

Lemma exists_true w p :
  exists_ w p = Returns true -> exists n, stat w p = Returns n.
Proof.
  unfold exists_. destruct (stat w p) as [n|e]; [eauto|].
  destruct (ignored e); discriminate.
Qed.

Lemma is_dir_true w p :
  is_dir w p = Returns true -> exists r x es, stat w p = Returns (Dir r x es).
Proof.
  unfold is_dir. destruct (stat w p) as [[t|r x es]|e]; try discriminate; [eauto|].
  destruct (ignored e); discriminate.
Qed.



Lemma stat_wf w p n : wf_node (fs w) = true -> stat w p = Returns n -> wf_node n = true.
Proof.
  intros Hwf H. apply stat_returns in H as (_ & _ & H).
  exact (@wf_lookup _ _ _ Hwf (@resolve_lookup _ _ _ H)).
Qed.

(** ** rglob *)




(** ** What a "specs" directory contributes *)



(** ** scan_specs *)












(** What the amended claim leaves out: a "specs" directory that cannot be
    listed is found by [rglob], and [iterdir] raises on it. *)
Example scan_specs_unlistable_specs_directory :
  accessible Examples.guarded_world Examples.ws = false /\
  scan_specs Examples.guarded_world Examples.ws = (Raises PermissionError, []).
Proof. split; reflexivity. Qed.

(* ===================================================================== *)
(** * The per-spec probes and the section of one spec *)
(* ===================================================================== *)

Lemma value_bind_returns A B (m : M A) (k : A -> M B) a :
  value m = Returns a -> value (bind m k) = value (k a).
Proof.
  destruct m as [o t]. simpl. intros ->. unfold bind. now destruct (k a).
Qed.

Lemma value_bind_raises A B (m : M A) (k : A -> M B) e :
  value m = Raises e -> value (bind m k) = Raises e.
Proof. destruct m as [o t]. simpl. now intros ->. Qed.

Lemma trace_bind_returns A B (m : M A) (k : A -> M B) a :
  value m = Returns a -> trace (bind m k) = trace m ++ trace (k a).
Proof.
  destruct m as [o t]. simpl. intros ->. unfold bind. now destruct (k a).
Qed.

Lemma trace_bind_raises A B (m : M A) (k : A -> M B) e :
  value m = Raises e -> trace (bind m k) = trace m.
Proof. destruct m as [o t]. simpl. now intros ->. Qed.

Lemma value_bind_inv A B (m : M A) (k : A -> M B) b :
  value (bind m k) = Returns b ->
  exists a, value m = Returns a /\ value (k a) = Returns b.
Proof.
  destruct m as [[a|e] t]; [|discriminate]. intros H. exists a. split; [reflexivity|].
  unfold bind in H. now destruct (k a).
Qed.

(** The two probes that read a file of ".ralph" raise what the test for the
    file raises, and nothing else. *)
Lemma get_ralph_status_eq w spec_dir :
  get_ralph_status w spec_dir =
  (match exists_ w (spec_dir // ".ralph" // "progress.json") with
   | Returns true =>
       Returns match read_text w (spec_dir // ".ralph" // "progress.json") with
               | Some text =>
                   match json_loads w text with Some v => v | None => JNone end
               | None => JNone
               end
   | Returns false => Returns JNone
   | Raises e => Raises e
   end, [Call P_ralph_status (Some spec_dir)]).
Proof.
  unfold get_ralph_status. rewrite bind_tick.
  destruct (exists_ w _) as [[|]|e]; try reflexivity.
  rewrite bind_lift_returns. cbn [negb].
  destruct (read_text w _); [|reflexivity].
  destruct (json_loads w _); reflexivity.
Qed.

Lemma get_session_log_eq w spec_dir :
  get_session_log w spec_dir =
  (match exists_ w (spec_dir // ".ralph" // "session.log") with
   | Returns true =>
       Returns match read_text w (spec_dir // ".ralph" // "session.log") with
               | Some text => last_n 10 (readlines text)
               | None => []
               end
   | Returns false => Returns []
   | Raises e => Raises e
   end, [Call P_session_log (Some spec_dir)]).
Proof.
  unfold get_session_log. rewrite bind_tick.
  destruct (exists_ w _) as [[|]|e]; try reflexivity.
  rewrite bind_lift_returns. cbn [negb].
  destruct (read_text w _); reflexivity.
Qed.

Lemma read_text_stat w p text :
  read_text w p = Some text -> stat w p = Returns (File (Some text)).
Proof.
  unfold read_text. destruct (stat w p) as [[t|r x es]|e]; try discriminate.
  now intros ->.
Qed.

Lemma read_text_exists w p text :
  read_text w p = Some text -> exists_ w p = Returns true.
Proof. intros H. unfold exists_. now rewrite (@read_text_stat _ _ _ H). Qed.

Lemma get_ralph_status_unavailable w spec_dir :
  progress_unavailable w spec_dir ->
  get_ralph_status w spec_dir
  = (Returns JNone, [Call P_ralph_status (Some spec_dir)]).
Proof.
  unfold progress_unavailable. rewrite get_ralph_status_eq.
  intros [H|[[H1 H2]|(text & H1 & H2)]].
  - now rewrite H.
  - now rewrite H1, H2.
  - now rewrite (@read_text_exists _ _ _ H1), H1, H2.
Qed.

Lemma get_session_log_absent w spec_dir :
  exists_ w (spec_dir // ".ralph" // "session.log") = Returns false ->
  get_session_log w spec_dir = (Returns [], [Call P_session_log (Some spec_dir)]).
Proof. rewrite get_session_log_eq. now intros ->. Qed.

Lemma split_on_nonempty sep s : forall cur, split_on sep s cur <> [].
Proof.
  induction s as [|c s IH]; intros cur; simpl; [discriminate|].
  destruct (char_eqb c sep); [discriminate | apply IH].
Qed.

(** [get_git_info] from where the ascent stops. *)
Lemma get_git_info_at w spec_dir repo_root :
  ascend w spec_dir = Returns repo_root ->
  match exists_ w (repo_root // ".git") with
  | Returns true =>
      exists g,
        get_git_info w spec_dir
          = (Returns (Some g),
             [ Call P_git_info (Some spec_dir);
               Exec GIT_BRANCH (Some repo_root);
               Exec GIT_LOG (Some repo_root);
               Exec GIT_STATUS (Some repo_root) ]) /\
        recent_commits g <> []
  | Returns false =>
      get_git_info w spec_dir = (Returns None, [Call P_git_info (Some spec_dir)])
  | Raises e =>
      get_git_info w spec_dir = (Raises e, [Call P_git_info (Some spec_dir)])
  end.
Proof.
  intros H. unfold get_git_info. rewrite bind_tick, H, bind_lift_returns.
  destruct (exists_ w _) as [[|]|e]; try reflexivity.
  rewrite bind_lift_returns, !run_cmd_eq.
  eexists. split; [reflexivity|]. apply split_on_nonempty.
Qed.

(** The git probe returns when every test for ".git" on the way up
    returns. *)
Lemma get_git_info_returns w spec_dir :
  (forall j, exists b, exists_ w (firstn j spec_dir // ".git") = Returns b) ->
  exists info, value (get_git_info w spec_dir) = Returns info.
Proof.
  intros Hq.
  destruct (ascend_spec w spec_dir) as (k & _ & [[Hroot _]|(e & _ & He & _)] & _).
  - pose proof (@get_git_info_at _ _ _ Hroot) as Hat.
    destruct (Hq k) as ([|] & Hb); rewrite Hb in Hat.
    + destruct Hat as (g & -> & _). now exists (Some g).
    + rewrite Hat. now exists None.
  - destruct (Hq k) as (b & Hb). congruence.
Qed.

(** The tests for ".git" return on every ancestor of a directory below
    which [os.stat] found something, or missed it for an entry that does
    not exist. *)
Lemma dotgit_tests_return w spec_dir q :
  q <> [] -> (path_bytes [lit ".git"] <= path_bytes q)%N ->
  forallb encodable (spec_dir ++ q) = true ->
  quiet (stat w (spec_dir ++ q)) = true ->
  forall j, exists b, exists_ w (firstn j spec_dir // ".git") = Returns b.
Proof.
  intros Hq Hlen Henc Hquiet j.
  assert (Hsplit : spec_dir ++ q = firstn j spec_dir ++ (skipn j spec_dir ++ q))
    by (now rewrite app_assoc, firstn_skipn).
  rewrite Hsplit in Henc, Hquiet.
  eexists. apply quiet_exists.
  apply (@stat_prefix_quiet w (lit ".git") (firstn j spec_dir)
           (skipn j spec_dir ++ q)); auto.
  - destruct (skipn j spec_dir); [exact Hq | discriminate].
  - rewrite path_bytes_app. lia.
Qed.

Lemma dotgit_tests_return_found w spec_dir q n :
  (path_bytes [lit ".git"] <= path_bytes q)%N ->
  stat w (spec_dir ++ q) = Returns n ->
  forall j, exists r, exists_ w (firstn j spec_dir // ".git") = Returns r.
Proof.
  intros Hlen S. destruct (@stat_returns _ _ _ S) as (He & _ & _).
  apply (@dotgit_tests_return w spec_dir q); auto.
  - intros ->. vm_compute in Hlen. now apply Hlen.
  - now rewrite S.
Qed.

Lemma ralph_file_path (spec_dir : Path) (nm : string) :
  spec_dir // ".ralph" // nm = spec_dir ++ [lit ".ralph"; lit nm].
Proof. unfold child. now rewrite <- app_assoc. Qed.

(** The outcome of a section, from the outcomes of its probes. *)
Lemma spec_section_value w spec_dir verbose rs log info :
  value (get_ralph_status w spec_dir) = Returns rs ->
  value (get_session_log w spec_dir) = Returns log ->
  value (get_git_info w spec_dir) = Returns info ->
  value (spec_section w spec_dir verbose) =
  match value (progress_block w rs) with
  | Returns progress =>
      match value (get_resource_usage w spec_dir) with
      | Returns resources =>
          Returns ([section_title spec_dir] ++ progress
                     ++ session_block log verbose ++ git_block info
                     ++ resources_block resources verbose)
      | Raises e => Raises e
      end
  | Raises e => Raises e
  end.
Proof.
  intros Hrs Hlog Hinfo. unfold spec_section.
  rewrite (value_bind_returns _ _ Hrs).
  destruct (value (progress_block w rs)) as [progress|e] eqn:Hp.
  2: { now rewrite (value_bind_raises _ _ Hp). }
  rewrite (value_bind_returns _ _ Hp), (value_bind_returns _ _ Hlog),
    (value_bind_returns _ _ Hinfo).
  destruct (value (get_resource_usage w spec_dir)) as [resources|e] eqn:Hr.
  - now rewrite (value_bind_returns _ _ Hr).
  - now rewrite (value_bind_raises _ _ Hr).
Qed.

(* ===================================================================== *)
(** * The progress block *)
(* ===================================================================== *)

Lemma py_len_has_len v : has_len v = true -> exists n, py_len v = ret n.
Proof. destruct v; simpl; try discriminate; eauto. Qed.

Lemma eq_str_true v text : eq_str v text = true <-> v = JStr text.
Proof.
  destruct v; simpl; split; try discriminate.
  - intros H. apply str_eqb_eq in H. congruence.
  - intros [= ->]. apply str_eqb_refl.
Qed.

Lemma blocked_status_iff (d : dict json) :
  eq_str (dict_get (lit "status") JNone d) (lit "blocked") = true <->
  dict_find (lit "status") d = Some (JStr (lit "blocked")).
Proof.
  rewrite eq_str_true. unfold dict_get.
  destruct (dict_find (lit "status") d); split; congruence.
Qed.

Lemma failed_tasks_iff (d : dict json) :
  truthy (dict_get (lit "failed_tasks") JNone d) = true <->
  exists v, dict_find (lit "failed_tasks") d = Some v /\ truthy v = true.
Proof.
  unfold dict_get. destruct (dict_find (lit "failed_tasks") d) as [v|].
  - split; [eauto|]. now intros (v' & [= <-] & H).
  - simpl. split; [discriminate|]. now intros (v' & [=] & _).
Qed.

Ltac in_list := simpl; solve [repeat (first [left; reflexivity | right])].
Ltac no_prefix H :=
  simpl in H;
  repeat (destruct H as [<-|H]; [vm_compute; discriminate|]); contradiction H.

Lemma progress_block_dict w d n k :
  d <> [] ->
  py_len (dict_get (lit "completed_tasks") (JList []) d) = ret n ->
  (truthy (dict_get (lit "failed_tasks") JNone d) = true ->
   py_len (dict_get (lit "failed_tasks") JNone d) = ret k) ->
  progress_block w (JDict d) =
  ret ([ NL :: lit "**Ralph Progress:**";
         lit "- Status: `"
           ++ py_str w (dict_get (lit "status") (JStr (lit "unknown")) d) ++ lit "`";
         lit "- Current Task: `"
           ++ py_str w (dict_get (lit "current_task") (JStr (lit "none")) d) ++ lit "`";
         lit "- Completed: " ++ str_of_nat n ++ lit " tasks" ]
       ++ (if eq_str (dict_get (lit "status") JNone d) (lit "blocked")
           then [BLOCKED_PREFIX
                   ++ py_str w (dict_get (lit "blocked_reason") (JStr (lit "unknown")) d)]
           else [])
       ++ (if truthy (dict_get (lit "failed_tasks") JNone d)
           then [FAILED_PREFIX ++ str_of_nat k] else [])
       ++ [lit "- Last Updated: `"
             ++ py_str w (dict_get (lit "last_updated") (JStr (lit "never")) d)
             ++ lit "`"]).
Proof.
  intros Hne Hc Hf. unfold progress_block.
  replace (truthy (JDict d)) with true by (destruct d; [congruence|reflexivity]).
  unfold as_dict. rewrite bind_ret_l, Hc, bind_ret_l.
  destruct (truthy (dict_get (lit "failed_tasks") JNone d)).
  - rewrite (Hf eq_refl), !bind_ret_l.
    destruct (eq_str (dict_get (lit "status") JNone d) (lit "blocked")); reflexivity.
  - rewrite !bind_ret_l.
    destruct (eq_str (dict_get (lit "status") JNone d) (lit "blocked")); reflexivity.
Qed.

(** C10 (as amended).  For every progress state that is a non-empty JSON
    object, each omitted field is rendered with its default and no omitted
    field makes the renderer fail: status `unknown`, current task `none`,
    completed count 0, last-updated `never`; the line of the blocked reason
    is there exactly when status is "blocked" (with reason "unknown" when
    the reason is omitted), and the line of the failed-task count exactly
    when failed_tasks is present with a true value.  (A field that is
    present must have a length where [len] is taken of it.) *)
Theorem progress_block_defaults w d :
  d <> [] ->
  (forall v, dict_find (lit "completed_tasks") d = Some v -> has_len v = true) ->
  (forall v, dict_find (lit "failed_tasks") d = Some v ->
             truthy v = true -> has_len v = true) ->
  exists lines,
    progress_block w (JDict d) = (Returns lines, []) /\
    (dict_find (lit "status") d = None -> In (lit "- Status: `unknown`") lines) /\
    (dict_find (lit "current_task") d = None ->
     In (lit "- Current Task: `none`") lines) /\
    (dict_find (lit "completed_tasks") d = None ->
     In (lit "- Completed: 0 tasks") lines) /\
    (dict_find (lit "last_updated") d = None ->
     In (lit "- Last Updated: `never`") lines) /\
    ((exists l, In l lines /\ startswith BLOCKED_PREFIX l = true) <->
     dict_find (lit "status") d = Some (JStr (lit "blocked"))) /\
    (dict_find (lit "status") d = Some (JStr (lit "blocked")) ->
     dict_find (lit "blocked_reason") d = None ->
     In (BLOCKED_PREFIX ++ lit "unknown") lines) /\
    ((exists l, In l lines /\ startswith FAILED_PREFIX l = true) <->
     exists v, dict_find (lit "failed_tasks") d = Some v /\ truthy v = true).
Proof.
  intros Hne Hc Hf.
  assert (exists n, py_len (dict_get (lit "completed_tasks") (JList []) d) = ret n /\
                    (dict_find (lit "completed_tasks") d = None -> n = 0))
    as (n & Hlen & Hn).
  { unfold dict_get. destruct (dict_find (lit "completed_tasks") d) as [v|].
    - destruct (py_len_has_len v (Hc v eq_refl)) as (n & ->).
      exists n. split; [reflexivity|discriminate].
    - exists 0. split; reflexivity. }
  pose proof (blocked_status_iff d) as Hb. pose proof (failed_tasks_iff d) as Hft.
  assert (exists k, truthy (dict_get (lit "failed_tasks") JNone d) = true ->
                    py_len (dict_get (lit "failed_tasks") JNone d) = ret k)
    as (k & Hk).
  { destruct (truthy (dict_get (lit "failed_tasks") JNone d)) eqn:T.
    - destruct Hft as [Hft _]. destruct (Hft eq_refl) as (v & Hv & Tv).
      unfold dict_get. rewrite Hv.
      destruct (py_len_has_len v (Hf v Hv Tv)) as (k & ->). eauto.
    - exists 0. discriminate. }
  eexists. split; [exact (@progress_block_dict w d n k Hne Hlen Hk)|].
  split; [|split; [|split; [|split; [|split; [|split]]]]].
  - intros H. unfold dict_get. rewrite H. in_list.
  - intros H. unfold dict_get. rewrite H. in_list.
  - intros H. rewrite (Hn H). in_list.
  - intros H. unfold dict_get. rewrite H. rewrite !in_app_iff. do 3 right. in_list.
  - rewrite <- Hb. split.
    + intros (l & Hin & Hst). rewrite !in_app_iff in Hin.
      destruct Hin as [Hin|[Hin|[Hin|Hin]]].
      * no_prefix Hin.
      * destruct (eq_str _ _); [reflexivity|contradiction Hin].
      * destruct (truthy _); no_prefix Hin.
      * no_prefix Hin.
    + intros ->. eexists. split.
      * rewrite !in_app_iff. right. left. left. reflexivity.
      * reflexivity.
  - intros Hs Hr. apply Hb in Hs. rewrite Hs. unfold dict_get. rewrite Hr.
    rewrite !in_app_iff. right. left. left. reflexivity.
  - rewrite <- Hft. split.
    + intros (l & Hin & Hst). rewrite !in_app_iff in Hin.
      destruct Hin as [Hin|[Hin|[Hin|Hin]]].
      * no_prefix Hin.
      * destruct (eq_str _ _); no_prefix Hin.
      * destruct (truthy _); [reflexivity|contradiction Hin].
      * no_prefix Hin.
    + intros ->. eexists. split.
      * rewrite !in_app_iff. do 2 right. left. left. reflexivity.
      * reflexivity.
Qed.

Lemma progress_block_defaults_witness :
  exists lines,
    progress_block Examples.bare_world (JDict [(lit "pid", JInt 4242)])
      = (Returns lines, []) /\
    In (lit "- Status: `unknown`") lines /\
    In (lit "- Current Task: `none`") lines /\
    In (lit "- Completed: 0 tasks") lines /\
    In (lit "- Last Updated: `never`") lines.
Proof.
  destruct (@progress_block_defaults Examples.bare_world [(lit "pid", JInt 4242)])
    as (lines & Heq & Hs & Hc & Hn & Hl & _).
  - discriminate.
  - intros v H. vm_compute in H. discriminate.
  - intros v H. vm_compute in H. discriminate.
  - exists lines. repeat split; auto.
Defined.

(** C10 as stated fails on the empty object: it parses as a JSON object
    and omits every field, and no progress line at all is rendered for it. *)
Lemma empty_object_renders_no_progress :
  get_ralph_status Examples.empty_object_world Examples.spec_a
    = (Returns (JDict []), [Call P_ralph_status (Some Examples.spec_a)]) /\
  progress_block Examples.empty_object_world (JDict []) = (Returns [], []) /\
  value (report_lines Examples.empty_object_world [Examples.spec_a] false)
    = Returns [ lit "# Ralph Workspace Spec Checkup";
                NL :: lit "**Generated:** 2024-01-01 00:00:00";
                lit "**Host:** devbox";
                lit "**Python:** 3.11.4";
                NL :: lit "## Found 1 Ralph Spec(s)";
                NL :: lit "### ws/specs/a" ].
Proof. repeat split. Qed.

(* ===================================================================== *)
(** * Absent progress, and the "blocked" scenario *)
(* ===================================================================== *)

Ltac differ H := vm_compute in H; discriminate H.

Lemma git_block_no_session info : ~ In SESSION_HEADER (git_block info).
Proof.
  destruct info as [g|]; simpl; [|tauto].
  intros [H|H]; [differ H|].
  rewrite !in_app_iff in H. destruct H as [H|[H|H]].
  - destruct (nonempty (branch g)); [|contradiction H].
    destruct H as [H|[]]. differ H.
  - destruct (nonempty (recent_commits g)); [|contradiction H].
    destruct H as [H|H]; [differ H|].
    apply in_map_iff in H as (c & H & _). differ H.
  - destruct (nonempty (status g) && nonempty (status g)); [|contradiction H].
    destruct H as [H|[]]. differ H.
Qed.

Lemma resources_block_no_session resources verbose :
  ~ In SESSION_HEADER (resources_block resources verbose).
Proof.
  unfold resources_block.
  destruct (nonempty resources && verbose); [|tauto].
  intros [H|H]; [differ H|].
  apply in_map_iff in H as (kv & H & _). differ H.
Qed.

Lemma exists_false_read_text w p : exists_ w p = Returns false -> read_text w p = None.
Proof.
  intros H. destruct (read_text w p) as [text|] eqn:R; [|reflexivity].
  rewrite (@read_text_exists _ _ _ R) in H. discriminate.
Qed.

(** The tests that the session-log and git probes make return when the
    test for the progress file of an existing spec directory did. *)
Lemma sibling_tests_return w spec_dir b :
  is_dir w spec_dir = Returns true ->
  exists_ w (spec_dir // ".ralph" // "progress.json") = Returns b ->
  (exists b', exists_ w (spec_dir // ".ralph" // "session.log") = Returns b') /\
  (forall j, exists r, exists_ w (firstn j spec_dir // ".git") = Returns r).
Proof.
  intros D E. apply is_dir_true in D as (r & x & es & S).
  destruct (@stat_returns _ _ _ S) as (Henc & _ & _).
  apply exists_returns in E.
  split.
  - eexists. apply quiet_exists.
    apply (@stat_prefix_quiet w (lit "session.log") (spec_dir // ".ralph")
             [lit "progress.json"]); auto.
    + discriminate.
    + vm_compute. discriminate.
    + unfold child. rewrite !forallb_app, Henc. reflexivity.
  - rewrite ralph_file_path in E.
    apply (@dotgit_tests_return w spec_dir [lit ".ralph"; lit "progress.json"]); auto.
    + discriminate.
    + vm_compute. discriminate.
    + rewrite forallb_app, Henc. reflexivity.
Qed.

(** C5, at the failing inputs.  A progress file that holds valid JSON which
    is not an object, here the list [1], is no parse failure for
    [get_ralph_status]: the list is returned as it is, [format_report]
    calls [get] on it, and the AttributeError leaves [format_report]
    before any other probe of that spec or of the next one is entered.
    And the test for the file stands outside the [try]: when the ".ralph"
    directory cannot be searched, [exists()] raises PermissionError, which
    leaves [get_ralph_status] and [format_report] in the same way.  Both
    directories are found by [scan_specs]. *)
Theorem unexpected_progress_aborts_report :
  scan_specs Examples.list_world Examples.ws
    = (Returns [Examples.spec_a; Examples.spec_b], []) /\
  read_text Examples.list_world (Examples.spec_a // ".ralph" // "progress.json")
    = Some (lit "[1]") /\
  get_ralph_status Examples.list_world Examples.spec_a
    = (Returns (JList [JInt 1]), [Call P_ralph_status (Some Examples.spec_a)]) /\
  format_report Examples.list_world [Examples.spec_a; Examples.spec_b] false
    = (Raises AttributeError, [Call P_ralph_status (Some Examples.spec_a)]) /\
  scan_specs Examples.sealed_world Examples.ws
    = (Returns [Examples.spec_a; Examples.spec_b], []) /\
  get_ralph_status Examples.sealed_world Examples.spec_a
    = (Raises PermissionError, [Call P_ralph_status (Some Examples.spec_a)]) /\
  format_report Examples.sealed_world [Examples.spec_a; Examples.spec_b] false
    = (Raises PermissionError, [Call P_ralph_status (Some Examples.spec_a)]).
Proof. repeat split. Qed.

(** X17.  For an existing spec directory whose progress file is absent,
    cannot be read or does not parse as JSON, [get_ralph_status] returns
    [None] and raises nothing, and the session-log and git probes return;
    whenever the resource probe returns too, the section of that spec is
    its title followed by the session-log block of the last ten lines of
    the log file (of no line when there is no readable log file), the git
    block and the resource block, with no progress line. *)
Theorem absent_progress_is_isolated w spec_dir verbose resources :
  is_dir w spec_dir = Returns true ->
  progress_unavailable w spec_dir ->
  value (get_resource_usage w spec_dir) = Returns resources ->
  let log :=
    match read_text w (spec_dir // ".ralph" // "session.log") with
    | Some text => last_n 10 (readlines text)
    | None => []
    end in
  get_ralph_status w spec_dir
    = (Returns JNone, [Call P_ralph_status (Some spec_dir)]) /\
  value (get_session_log w spec_dir) = Returns log /\
  exists info,
    value (get_git_info w spec_dir) = Returns info /\
    value (spec_section w spec_dir verbose)
    = Returns ([section_title spec_dir] ++ session_block log verbose
                 ++ git_block info ++ resources_block resources verbose).
Proof.
  intros D H Hres log. pose proof (get_ralph_status_unavailable H) as Hrs.
  assert (Hb : exists b,
             exists_ w (spec_dir // ".ralph" // "progress.json") = Returns b).
  { destruct H as [H|[[H _]|(text & H & _)]]; eauto.
    apply read_text_exists in H. eauto. }
  destruct Hb as (b & Hb).
  destruct (@sibling_tests_return _ _ _ D Hb) as [(b' & Hlog) Hgit].
  destruct (@get_git_info_returns _ _ Hgit) as (info & Hinfo).
  assert (Hsl : value (get_session_log w spec_dir) = Returns log).
  { rewrite get_session_log_eq, Hlog. subst log. destruct b'; [reflexivity|].
    now rewrite (@exists_false_read_text _ _ Hlog). }
  split; [exact Hrs|]. split; [exact Hsl|].
  exists info. split; [exact Hinfo|].
  rewrite (@spec_section_value w spec_dir verbose JNone log info);
    [| now rewrite Hrs | exact Hsl | exact Hinfo].
  cbn [progress_block truthy value ret fst]. now rewrite Hres.
Qed.

Lemma absent_progress_is_isolated_witness :
  get_ralph_status Examples.bare_world Examples.spec_a
    = (Returns JNone, [Call P_ralph_status (Some Examples.spec_a)]) /\
  value (spec_section Examples.bare_world Examples.spec_a true)
    = Returns [NL :: lit "### ws/specs/a"].
Proof.
  destruct (@absent_progress_is_isolated Examples.bare_world Examples.spec_a true []
              eq_refl (or_introl eq_refl) eq_refl)
    as (Hrs & _ & info & Hinfo & Hsec).
  split; [exact Hrs|]. rewrite Hsec.
  vm_compute in Hinfo. injection Hinfo as <-. reflexivity.
Defined.

(** C7.  A spec directory whose progress file holds the "blocked" object
    and that has no session log is rendered, whenever its resource probe
    returns, as: the title, the progress lines with status `blocked`,
    current task `t3`, completed count 2, the blocked line with "awaiting
    approval" and the last update, then directly the git block and the
    resource block; no session-log header is among the lines. *)
Theorem blocked_scenario w spec_dir verbose text resources :
  read_text w (spec_dir // ".ralph" // "progress.json") = Some text ->
  json_loads w text = Some (JDict BLOCKED_STATE) ->
  exists_ w (spec_dir // ".ralph" // "session.log") = Returns false ->
  value (get_resource_usage w spec_dir) = Returns resources ->
  exists info lines,
    value (get_git_info w spec_dir) = Returns info /\
    value (spec_section w spec_dir verbose) = Returns lines /\
    lines = [ section_title spec_dir;
              NL :: lit "**Ralph Progress:**";
              lit "- Status: `blocked`";
              lit "- Current Task: `t3`";
              lit "- Completed: 2 tasks";
              BLOCKED_PREFIX ++ lit "awaiting approval";
              lit "- Last Updated: `2024-01-01T00:00:00Z`" ]
            ++ git_block info ++ resources_block resources verbose /\
    ~ In SESSION_HEADER lines.
Proof.
  intros Htext Hjson Hlog Hres.
  assert (Hgit : forall j, exists r,
             exists_ w (firstn j spec_dir // ".git") = Returns r).
  { apply (@dotgit_tests_return_found w spec_dir [lit ".ralph"; lit "progress.json"]
             (File (Some text))).
    - vm_compute. discriminate.
    - rewrite <- ralph_file_path. now apply read_text_stat. }
  destruct (@get_git_info_returns _ _ Hgit) as (info & Hinfo).
  assert (Hrs : value (get_ralph_status w spec_dir) = Returns (JDict BLOCKED_STATE)).
  { rewrite get_ralph_status_eq, (@read_text_exists _ _ _ Htext), Htext, Hjson.
    reflexivity. }
  exists info. eexists. split; [exact Hinfo|]. split; [|split; [reflexivity|]].
  - rewrite (@spec_section_value w spec_dir verbose _ [] info Hrs);
      [| now rewrite (@get_session_log_absent _ _ Hlog) | exact Hinfo].
    rewrite Hres. reflexivity.
  - rewrite in_app_iff, in_app_iff. intros [H|[H|H]].
    + simpl in H.
      repeat (destruct H as [H|H]; [differ H|]). contradiction H.
    + exact (git_block_no_session _ H).
    + exact (resources_block_no_session _ _ H).
Qed.

Lemma blocked_scenario_witness :
  value (spec_section Examples.blocked_world Examples.spec_a true)
    = Returns [ NL :: lit "### ws/specs/a";
                NL :: lit "**Ralph Progress:**";
                lit "- Status: `blocked`";
                lit "- Current Task: `t3`";
                lit "- Completed: 2 tasks";
                BLOCKED_PREFIX ++ lit "awaiting approval";
                lit "- Last Updated: `2024-01-01T00:00:00Z`";
                NL :: lit "**Git Status:**";
                lit "- Branch: `main`";
                lit "- Recent Commits:";
                lit "  - 1a2b3c4 add parser";
                lit "  - 5d6e7f8 initial import" ].
Proof.
  destruct (@blocked_scenario Examples.blocked_world Examples.spec_a true
              BLOCKED_TEXT [] eq_refl eq_refl eq_refl eq_refl)
    as (info & lines & Hinfo & Hsec & Hlines & _).
  rewrite Hsec, Hlines. vm_compute in Hinfo. injection Hinfo as <-. reflexivity.
Defined.

(* ===================================================================== *)
(** * Failure isolation *)
(* ===================================================================== *)

(** C3, at the failing input.  With two specs beside a service that holds
    "node_modules", and a [du] that exits with status 1 and an empty
    standard output, [run_cmd] returns the empty string, [split()[0]]
    raises IndexError in the resource probe of the first spec, and the
    exception leaves [format_report]: no report is produced and no probe of
    the second spec is ever entered. *)
Theorem resource_probe_aborts_report :
  run_cmd Examples.du_fails_world (lit "du -sh '/ws/services/api/node_modules'") None
    = (Returns [], [Exec (lit "du -sh '/ws/services/api/node_modules'") None]) /\
  value (get_resource_usage Examples.du_fails_world Examples.spec_a)
    = Raises IndexError /\
  format_report Examples.du_fails_world [Examples.spec_a; Examples.spec_b] false
    = (Raises IndexError,
       [ Call P_ralph_status (Some Examples.spec_a);
         Call P_session_log (Some Examples.spec_a);
         Call P_git_info (Some Examples.spec_a);
         Call P_resource_usage (Some Examples.spec_a);
         Exec (lit "du -sh '/ws/services/api/node_modules'") None ]).
Proof. repeat split. Qed.

(* ===================================================================== *)
(** * Determinism: the report depends on what is observed *)
(* ===================================================================== *)

(** The loop over the specs with lines put in front of its accumulator. *)
Lemma sections_loop_shift w verbose specs : forall (h init : list str),
  for_each specs (fun spec_dir lines =>
                    section <- spec_section w spec_dir verbose ;;
                    ret (lines ++ section)) (h ++ init)
  = (lines <- for_each specs (fun spec_dir lines =>
                section <- spec_section w spec_dir verbose ;;
                ret (lines ++ section)) init ;;
     ret (h ++ lines)).
Proof.
  induction specs as [|d specs IH]; intros h init; cbn [for_each].
  - now rewrite bind_ret_l.
  - rewrite !bind_assoc. apply bind_ext; [reflexivity|]. intros section.
    rewrite !bind_ret_l, <- app_assoc. apply IH.
Qed.

(** The report is its header followed by lines that do not depend on the
    clock. *)
Lemma report_lines_split w specs verbose :
  report_lines w specs verbose
  = (lines <- report_body w specs verbose ;; ret (header w ++ lines)).
Proof.
  unfold report_lines, report_body.
  destruct (negb (nonempty specs)); [now rewrite bind_ret_l|].
  fold (count_line (List.length specs)).
  rewrite sections_loop_shift, !bind_assoc.
  apply bind_ext; [reflexivity|]. intros lines. rewrite bind_ret_l.
  destruct verbose; [|now rewrite bind_ret_l].
  rewrite bind_assoc. apply bind_ext; [reflexivity|]. intros diag.
  now rewrite bind_ret_l, app_assoc.
Qed.

Lemma format_report_split w specs verbose :
  format_report w specs verbose
  = (lines <- report_body w specs verbose ;;
     ret (GENERATED_PREFIX ++ now w ++ [NL]
            ++ join [NL] ((lit "**Host:** " ++ nodename w)
                            :: (lit "**Python:** " ++ python_version w) :: lines))).
Proof.
  unfold format_report. rewrite report_lines_split, bind_assoc.
  apply bind_ext; [reflexivity|]. intros lines. rewrite bind_ret_l.
  unfold header, GENERATED_PREFIX. cbn [app join].
  now rewrite <- !app_assoc.
Qed.

Section SameObservations.

Variables w1 w2 : World.
Hypothesis Hobs : same_observations w1 w2.

Let Hfs : fs w1 = fs w2 := proj1 Hobs.
Let Hlaunch : forall cmd cwd, launch w1 cmd cwd = launch w2 cmd cwd :=
  proj1 (proj2 Hobs).
Let Hjson : forall text, json_loads w1 text = json_loads w2 text :=
  proj1 (proj2 (proj2 Hobs)).
Let Hrepr : forall v, py_repr w1 v = py_repr w2 v :=
  proj1 (proj2 (proj2 (proj2 Hobs))).

Lemma stat_obs p : stat w1 p = stat w2 p.
Proof. unfold stat. now rewrite Hfs. Qed.

Lemma exists_obs p : exists_ w1 p = exists_ w2 p.
Proof. unfold exists_. now rewrite stat_obs. Qed.

Lemma is_dir_obs p : is_dir w1 p = is_dir w2 p.
Proof. unfold is_dir. now rewrite stat_obs. Qed.

Lemma iterdir_obs p : iterdir w1 p = iterdir w2 p.
Proof. unfold iterdir. now rewrite stat_obs. Qed.

Lemma read_text_obs p : read_text w1 p = read_text w2 p.
Proof. unfold read_text. now rewrite stat_obs. Qed.

Lemma run_cmd_obs cmd cwd : run_cmd w1 cmd cwd = run_cmd w2 cmd cwd.
Proof. unfold run_cmd. now rewrite Hlaunch. Qed.

Lemma get_ralph_status_obs d : get_ralph_status w1 d = get_ralph_status w2 d.
Proof.
  rewrite !get_ralph_status_eq, exists_obs, read_text_obs.
  destruct (read_text w2 _); [now rewrite Hjson | reflexivity].
Qed.

Lemma get_session_log_obs d : get_session_log w1 d = get_session_log w2 d.
Proof. now rewrite !get_session_log_eq, exists_obs, read_text_obs. Qed.

Lemma ascend_obs d : ascend w1 d = ascend w2 d.
Proof.
  induction d as [|c p IH] using rev_ind.
  - now rewrite !ascend_root.
  - now rewrite !ascend_snoc, exists_obs, IH.
Qed.

Lemma get_git_info_obs d : get_git_info w1 d = get_git_info w2 d.
Proof.
  unfold get_git_info. rewrite ascend_obs.
  apply bind_ext; [reflexivity|]. intros _.
  apply bind_ext; [reflexivity|]. intros repo_root. rewrite exists_obs.
  apply bind_ext; [reflexivity|]. intros [|]; [|reflexivity].
  repeat (apply bind_ext; [apply run_cmd_obs|]; intros ?). reflexivity.
Qed.

Lemma get_resource_usage_obs d : get_resource_usage w1 d = get_resource_usage w2 d.
Proof.
  unfold get_resource_usage. rewrite exists_obs, iterdir_obs.
  apply bind_ext; [reflexivity|]. intros _.
  apply bind_ext; [reflexivity|]. intros [|]; [|reflexivity].
  apply bind_ext; [reflexivity|]. intros entries.
  apply for_each_ext. intros service_dir resources.
  rewrite is_dir_obs, exists_obs.
  apply bind_ext; [reflexivity|]. intros [|]; [|reflexivity].
  apply bind_ext; [reflexivity|]. intros [|]; [|reflexivity].
  apply bind_ext; [apply run_cmd_obs | reflexivity].
Qed.

Lemma check_docker_status_obs : check_docker_status w1 = check_docker_status w2.
Proof.
  unfold check_docker_status. apply bind_ext; [reflexivity|]. intros _.
  apply bind_ext; [apply run_cmd_obs | reflexivity].
Qed.

Lemma check_system_deps_obs : check_system_deps w1 = check_system_deps w2.
Proof.
  unfold check_system_deps. apply bind_ext; [reflexivity|]. intros _.
  repeat (apply bind_ext; [apply run_cmd_obs|]; intros ?). reflexivity.
Qed.

Lemma py_str_obs v : py_str w1 v = py_str w2 v.
Proof. destruct v; simpl; auto. Qed.

Lemma progress_block_obs v : progress_block w1 v = progress_block w2 v.
Proof.
  unfold progress_block. destruct (truthy v); [|reflexivity].
  apply bind_ext; [reflexivity|]. intros d. rewrite !py_str_obs. reflexivity.
Qed.

Lemma spec_section_obs d verbose : spec_section w1 d verbose = spec_section w2 d verbose.
Proof.
  unfold spec_section.
  apply bind_ext; [apply get_ralph_status_obs|]. intros rs.
  apply bind_ext; [apply progress_block_obs|]. intros progress.
  apply bind_ext; [apply get_session_log_obs|]. intros log.
  apply bind_ext; [apply get_git_info_obs|]. intros info.
  apply bind_ext; [apply get_resource_usage_obs|]. reflexivity.
Qed.

Lemma diagnostics_obs : diagnostics w1 = diagnostics w2.
Proof.
  unfold diagnostics.
  apply bind_ext; [apply check_docker_status_obs|]. intros docker_info.
  apply bind_ext; [apply check_system_deps_obs|]. reflexivity.
Qed.

(** What stands below the header is the same in the two worlds, whatever
    their clocks read. *)
Lemma report_body_obs specs verbose :
  report_body w1 specs verbose = report_body w2 specs verbose.
Proof.
  unfold report_body. destruct (negb (nonempty specs)); [reflexivity|].
  apply bind_ext.
  - apply for_each_ext. intros d lines.
    apply bind_ext; [apply spec_section_obs | reflexivity].
  - intros lines. destruct verbose; [|reflexivity].
    apply bind_ext; [apply diagnostics_obs | reflexivity].
Qed.

End SameObservations.

(** C4 (as amended).  [format_report] reads the clock once, for the text
    that follows "**Generated:** ", and everything else in its document is
    a function of what it observes: in two worlds where the filesystem,
    every command result, [json.load], the host name and the interpreter
    version are the same, the same spec list and verbose flag give the
    same trace and the same exception, if any, and two documents that are
    identical before and after the reading of the clock that each of them
    shows; so the two documents are byte for byte the same when the clock
    reads the same. *)
Theorem format_report_deterministic w1 w2 specs verbose :
  same_observations w1 w2 ->
  trace (format_report w1 specs verbose) = trace (format_report w2 specs verbose) /\
  match value (format_report w1 specs verbose),
        value (format_report w2 specs verbose) with
  | Returns doc1, Returns doc2 =>
      exists rest,
        doc1 = GENERATED_PREFIX ++ now w1 ++ rest /\
        doc2 = GENERATED_PREFIX ++ now w2 ++ rest
  | Raises e1, Raises e2 => e1 = e2
  | _, _ => False
  end /\
  (now w1 = now w2 ->
   format_report w1 specs verbose = format_report w2 specs verbose).
Proof.
  intros Hobs. rewrite !format_report_split, (report_body_obs Hobs specs verbose).
  pose proof Hobs as (_ & _ & _ & _ & Hn & Hp). rewrite Hn, Hp.
  destruct (report_body w2 specs verbose) as [[lines|e] t]; cbn [bind ret value trace fst snd].
  - split; [reflexivity|]. split; [eauto|]. intros E. now rewrite E.
  - split; [reflexivity|]. split; reflexivity.
Qed.

Lemma format_report_deterministic_witness :
  exists rest,
    value (format_report Examples.blocked_world [Examples.spec_a] true)
      = Returns (GENERATED_PREFIX ++ lit "2024-01-01 00:00:00" ++ rest) /\
    value (format_report Examples.blocked_world_later [Examples.spec_a] true)
      = Returns (GENERATED_PREFIX ++ lit "2024-01-01 00:00:01" ++ rest).
Proof.
  assert (Hobs : same_observations Examples.blocked_world Examples.blocked_world_later)
    by (repeat split).
  destruct (@format_report_deterministic Examples.blocked_world
              Examples.blocked_world_later [Examples.spec_a] true Hobs)
    as (_ & H & _).
  destruct (value (format_report Examples.blocked_world [Examples.spec_a] true))
    as [doc1|e1] eqn:E1;
    destruct (value (format_report Examples.blocked_world_later [Examples.spec_a] true))
      as [doc2|e2] eqn:E2;
    try contradiction H; [|discriminate E1].
  destruct H as (rest & -> & ->). exists rest. split; reflexivity.
Defined.

(** C4 as stated fails: the same spec list, the same probe data and the
    same verbose flag give two different documents when the clock has
    moved on between the two calls. *)
Lemma format_report_reads_the_clock :
  same_observations Examples.blocked_world Examples.blocked_world_later /\
  value (format_report Examples.blocked_world [Examples.spec_a] true)
    <> value (format_report Examples.blocked_world_later [Examples.spec_a] true).
Proof.
  split; [repeat split|].
  intros H. vm_compute in H. discriminate H.
Qed.

(* ===================================================================== *)
(** * The workspace-wide probes *)
(* ===================================================================== *)

Lemma trace_bind_forallb A B (P : event -> bool) (m : M A) (k : A -> M B) :
  forallb P (trace m) = true ->
  (forall a, forallb P (trace (k a)) = true) ->
  forallb P (trace (bind m k)) = true.
Proof.
  destruct m as [[a|e] t]; simpl; intros Hm Hk; [|exact Hm].
  specialize (Hk a). destruct (k a) as [o t']. simpl in *.
  rewrite forallb_app. now rewrite Hm, Hk.
Qed.

Lemma trace_for_each_forallb A S (P : event -> bool) (l : list A)
    (body : A -> S -> M S) :
  (forall x s, forallb P (trace (body x s)) = true) ->
  forall s, forallb P (trace (for_each l body s)) = true.
Proof.
  intros H. induction l as [|x l IH]; intros s; simpl; [reflexivity|].
  apply trace_bind_forallb; auto.
Qed.

Ltac per_spec_steps :=
  repeat first
    [ reflexivity
    | rewrite run_cmd_eq; reflexivity
    | match goal with
      | |- forallb _ (trace (bind _ _)) = true =>
          apply trace_bind_forallb; [|intros ?]
      | |- forallb _ (trace (for_each _ _ _)) = true =>
          apply trace_for_each_forallb; intros ? ?
      | |- forallb _ (trace (if ?b then _ else _)) = true => destruct b
      | |- forallb _ (trace (index0 ?l)) = true => destruct l
      end ].

Lemma progress_block_per_spec w v :
  forallb per_spec_event (trace (progress_block w v)) = true.
Proof.
  unfold progress_block. destruct (truthy v); [|reflexivity].
  per_spec_steps.
  - destruct v; reflexivity.
  - destruct (dict_get _ _ _); reflexivity.
  - destruct (dict_get _ _ _); reflexivity.
Qed.

Lemma get_git_info_per_spec w d :
  forallb per_spec_event (trace (get_git_info w d)) = true.
Proof. unfold get_git_info. per_spec_steps. Qed.

Lemma get_resource_usage_per_spec w d :
  forallb per_spec_event (trace (get_resource_usage w d)) = true.
Proof. unfold get_resource_usage. per_spec_steps. Qed.

Lemma spec_section_per_spec w d verbose :
  forallb per_spec_event (trace (spec_section w d verbose)) = true.
Proof.
  unfold spec_section. per_spec_steps.
  - rewrite get_ralph_status_eq. reflexivity.
  - apply progress_block_per_spec.
  - rewrite get_session_log_eq. reflexivity.
  - apply get_git_info_per_spec.
  - apply get_resource_usage_per_spec.
Qed.

Lemma diagnostics_eq w :
  exists diag, diagnostics w = (Returns diag, DIAGNOSTICS_TRACE).
Proof.
  unfold diagnostics, check_docker_status, check_system_deps.
  rewrite !run_cmd_eq. simpl.
  destruct (nonempty _ && negb _); simpl; eauto.
Qed.

Lemma report_lines_trace w specs lines :
  specs <> [] ->
  value (report_lines w specs true) = Returns lines ->
  exists per_spec,
    trace (report_lines w specs true) = per_spec ++ DIAGNOSTICS_TRACE /\
    forallb per_spec_event per_spec = true.
Proof.
  intros Hne. unfold report_lines.
  replace (negb (nonempty specs)) with false by (destruct specs; [congruence|reflexivity]).
  set (body := fun spec_dir lines => _).
  assert (Hbody : forall x acc, forallb per_spec_event (trace (body x acc)) = true).
  { intros x acc. subst body. simpl.
    apply trace_bind_forallb; [apply spec_section_per_spec | reflexivity]. }
  pose proof (@trace_for_each_forallb _ _ per_spec_event specs body Hbody) as Hq.
  intros Hv.
  match type of Hv with
  | value (bind (for_each specs body ?init) _) = _ =>
      specialize (Hq init);
      destruct (for_each specs body init) as [[ls|e] t]
  end; [|discriminate Hv].
  destruct (diagnostics_eq w) as (diag & Hd).
  exists t. split; [|exact Hq].
  simpl. rewrite Hd. reflexivity.
Qed.

Lemma per_spec_counts t :
  forallb per_spec_event t = true ->
  runs P_docker_status t = 0 /\ runs P_system_deps t = 0 /\
  execs DOCKER_PS t = 0 /\ execs WHICH_TIMEOUT t = 0.
Proof.
  unfold runs, execs.
  induction t as [|ev t IH]; simpl; [auto|].
  intros H. apply andb_prop in H as [Hev Ht].
  destruct (IH Ht) as (H1 & H2 & H3 & H4).
  destruct ev as [cmd cwd|p d]; simpl in *.
  - apply andb_prop in Hev as [Hd Hw].
    apply negb_true_iff in Hd, Hw. rewrite Hd, Hw. auto.
  - destruct p; simpl; auto; discriminate.
Qed.

Lemma runs_app p t1 t2 : runs p (t1 ++ t2) = runs p t1 + runs p t2.
Proof. unfold runs. now rewrite filter_app, length_app. Qed.

Lemma execs_app cmd t1 t2 : execs cmd (t1 ++ t2) = execs cmd t1 + execs cmd t2.
Proof. unfold execs. now rewrite filter_app, length_app. Qed.

(** C6 (as amended).  In a verbose run over at least one spec that builds
    all its per-spec records (no probe raises), the trace is the events of
    the per-spec part followed by those of the diagnostics: the Docker
    probe and the dependency probe are each entered exactly once, after
    every per-spec probe; the container listing is executed once and
    "which timeout" twice.  With no spec at all neither probe is run. *)
Theorem workspace_probes_run_once w specs doc :
  specs <> [] ->
  value (format_report w specs true) = Returns doc ->
  (exists per_spec,
      trace (format_report w specs true) = per_spec ++ DIAGNOSTICS_TRACE /\
      forallb per_spec_event per_spec = true) /\
  runs P_docker_status (trace (format_report w specs true)) = 1 /\
  runs P_system_deps (trace (format_report w specs true)) = 1 /\
  execs DOCKER_PS (trace (format_report w specs true)) = 1 /\
  execs WHICH_TIMEOUT (trace (format_report w specs true)) = 2 /\
  trace (format_report w [] true) = [].
Proof.
  intros Hne Hv. unfold format_report in *.
  destruct (value (report_lines w specs true)) as [lines|e] eqn:Hl.
  2: { rewrite (value_bind_raises _ _ Hl) in Hv. discriminate. }
  rewrite (trace_bind_returns _ _ Hl). simpl. rewrite app_nil_r.
  destruct (report_lines_trace w Hne Hl) as (per_spec & -> & Hq).
  destruct (per_spec_counts _ Hq) as (H1 & H2 & H3 & H4).
  rewrite !runs_app, !execs_app, H1, H2, H3, H4.
  repeat split. exists per_spec. auto.
Qed.

Lemma workspace_probes_run_once_witness :
  runs P_docker_status
    (trace (format_report Examples.blocked_world [Examples.spec_a] true)) = 1 /\
  runs P_system_deps
    (trace (format_report Examples.blocked_world [Examples.spec_a] true)) = 1.
Proof.
  assert (Hne : [Examples.spec_a] <> []) by discriminate.
  destruct (@workspace_probes_run_once Examples.blocked_world [Examples.spec_a]
              _ Hne eq_refl)
    as (_ & H1 & H2 & _).
  split; assumption.
Defined.

(** C6 as stated fails with no spec: the report stops at the warning line
    and neither workspace-wide probe is run, although verbose was asked. *)
Lemma no_specs_no_diagnostics :
  format_report Examples.bare_world [] true
    = (Returns (join [NL]
                  [ lit "# Ralph Workspace Spec Checkup";
                    NL :: lit "**Generated:** 2024-01-01 00:00:00";
                    lit "**Host:** devbox";
                    lit "**Python:** 3.11.4";
                    NO_SPECS ]), []) /\
  runs P_docker_status (trace (format_report Examples.bare_world [] true)) = 0 /\
  runs P_system_deps (trace (format_report Examples.bare_world [] true)) = 0.
Proof. repeat split. Qed.

(* ===================================================================== *)
(** * A whole report *)
(* ===================================================================== *)

(** The verbose report of the repository with the one blocked spec, where
    neither docker nor timeout is installed. *)
Example report_lines_blocked_world :
  value (report_lines Examples.blocked_world [Examples.spec_a] true)
    = Returns [ lit "# Ralph Workspace Spec Checkup";
                NL :: lit "**Generated:** 2024-01-01 00:00:00";
                lit "**Host:** devbox";
                lit "**Python:** 3.11.4";
                NL :: lit "## Found 1 Ralph Spec(s)";
                NL :: lit "### ws/specs/a";
                NL :: lit "**Ralph Progress:**";
                lit "- Status: `blocked`";
                lit "- Current Task: `t3`";
                lit "- Completed: 2 tasks";
                BLOCKED_PREFIX ++ lit "awaiting approval";
                lit "- Last Updated: `2024-01-01T00:00:00Z`";
                NL :: lit "**Git Status:**";
                lit "- Branch: `main`";
                lit "- Recent Commits:";
                lit "  - 1a2b3c4 add parser";
                lit "  - 5d6e7f8 initial import";
                NL :: lit "## System Diagnostics";
                NL :: lit "**Docker Status:**";
                lit "```" ++ [NL] ++ DOCKER_UNAVAILABLE ++ [NL] ++ lit "```";
                NL :: lit "**System Dependencies:**";
                lit "- timeout: " ++ CROSS_MARK ++ lit " Missing" ].
Proof. reflexivity. Qed.

(* ===================================================================== *)
(** * White space *)
(* ===================================================================== *)

Lemma lstrip_nil_iff s : lstrip s = [] <-> blank s = true.
Proof.
  unfold blank. induction s as [|c s IH]; simpl; [tauto|].
  destruct (isspace c); simpl; [exact IH|]. split; discriminate.
Qed.

Lemma lstrip_head s c r : lstrip s = c :: r -> isspace c = false.
Proof.
  induction s as [|x s IH]; simpl; [discriminate|].
  destruct (isspace x) eqn:E; [exact IH|]. now intros [= <- _].
Qed.

Lemma lstrip_app_last l c :
  lstrip (l ++ [c]) =
  match lstrip l with
  | [] => if isspace c then [] else [c]
  | r => r ++ [c]
  end.
Proof.
  induction l as [|x l IH]; simpl; [reflexivity|].
  destruct (isspace x); [exact IH | reflexivity].
Qed.

(** [rstrip], read from the left. *)
Lemma rstrip_cons c s :
  rstrip (c :: s) =
  match rstrip s with
  | [] => if isspace c then [] else [c]
  | r => c :: r
  end.
Proof.
  unfold rstrip. simpl rev. rewrite lstrip_app_last.
  destruct (lstrip (rev s)) as [|x r]; simpl.
  - destruct (isspace c); reflexivity.
  - rewrite rev_app_distr. simpl.
    destruct (rev r ++ [x]) eqn:E; [|reflexivity].
    apply app_eq_nil in E as [_ [=]].
Qed.

Lemma rstrip_nil_iff s : rstrip s = [] <-> blank s = true.
Proof.
  unfold blank. induction s as [|c s IH]; [simpl; tauto|].
  rewrite rstrip_cons. simpl forallb.
  destruct (rstrip s) as [|x r].
  - destruct (isspace c); simpl; [|split; discriminate].
    split; intros _; [now apply IH | reflexivity].
  - split; [discriminate|]. intros H. apply andb_prop in H as [_ H].
    apply IH in H. discriminate.
Qed.

Lemma rstrip_last s c r :
  rstrip s = c :: r -> isspace (last (c :: r) c) = false.
Proof.
  unfold rstrip. intros H.
  destruct (lstrip (rev s)) as [|x l] eqn:E; [discriminate|].
  rewrite <- H. simpl rev. rewrite last_last. eapply lstrip_head, E.
Qed.

Lemma rstrip_head s c r : rstrip s = c :: r -> exists s', s = c :: s'.
Proof.
  destruct s as [|x s]; [discriminate|]. rewrite rstrip_cons.
  destruct (rstrip s); [destruct (isspace x)|]; intros [= <- _]; eauto.
Qed.

Lemma strip_nil_iff s : strip s = [] <-> blank s = true.
Proof.
  unfold strip. rewrite rstrip_nil_iff. unfold blank.
  induction s as [|c s IH]; simpl; [tauto|].
  destruct (isspace c) eqn:E; simpl; [exact IH|]. rewrite E. simpl. tauto.
Qed.

Lemma split_ws_lstrip s : split_ws (lstrip s) [] = split_ws s [].
Proof.
  induction s as [|c s IH]; simpl; [reflexivity|].
  destruct (isspace c) eqn:E; [exact IH|]. simpl. now rewrite E.
Qed.

Lemma split_ws_rstrip s : forall cur, split_ws (rstrip s) cur = split_ws s cur.
Proof.
  induction s as [|c s IH]; intros cur; [reflexivity|].
  rewrite rstrip_cons. destruct (rstrip s) as [|x r] eqn:R.
  - simpl. destruct (isspace c) eqn:E.
    + destruct cur; rewrite <- IH; reflexivity.
    + simpl. rewrite E, <- IH. reflexivity.
  - simpl. destruct (isspace c); [destruct cur|]; now rewrite <- IH.
Qed.

Lemma split_strip s : split (strip s) = split s.
Proof. unfold split, strip. now rewrite split_ws_rstrip, split_ws_lstrip. Qed.

Lemma split_ws_nil_iff s : forall cur,
  split_ws s cur = [] <-> cur = [] /\ blank s = true.
Proof.
  unfold blank. induction s as [|c s IH]; intros cur; simpl.
  - destruct cur; split; try tauto; try discriminate. now intros [[=] _].
  - destruct (isspace c); simpl.
    + destruct cur; [apply IH|]. split; [discriminate|]. now intros [[=] _].
    + rewrite IH. split; [now intros [[=] _] | now intros [_ [=]]].
Qed.

Lemma split_nil_iff s : split s = [] <-> blank s = true.
Proof. unfold split. rewrite split_ws_nil_iff. tauto. Qed.

Lemma lstrip_id s :
  (forall c r, s = c :: r -> isspace c = false) -> lstrip s = s.
Proof.
  destruct s as [|c r]; [reflexivity|]. intros H. simpl.
  now rewrite (H c r eq_refl).
Qed.

Lemma strip_outer s c r :
  strip s = c :: r -> isspace c = false /\ isspace (last (c :: r) c) = false.
Proof.
  unfold strip. intros H. split.
  - destruct (rstrip_head _ H) as (s' & Hs). eapply lstrip_head, Hs.
  - eapply rstrip_last, H.
Qed.

Lemma strip_idempotent s : strip (strip s) = strip s.
Proof.
  destruct (strip s) as [|c r] eqn:E; [reflexivity|].
  destruct (strip_outer _ E) as [Hc Hl].
  unfold strip. rewrite lstrip_id by (now intros ? ? [= <- <-]).
  unfold rstrip. destruct (rev (c :: r)) as [|x l] eqn:R.
  - apply (f_equal (@List.length _)) in R. rewrite length_rev in R. discriminate.
  - assert (Hx : c :: r = rev l ++ [x]).
    { rewrite <- (rev_involutive (c :: r)), R. reflexivity. }
    rewrite Hx, last_last in Hl. simpl. rewrite Hl. simpl. now rewrite Hx.
Qed.

(** X3.  When the command completes, the string [run_cmd] returns is
    trimmed: it is empty exactly when the standard output is blank, it
    neither starts nor ends with white space, and trimming it again changes
    nothing. *)
Theorem run_cmd_output_is_trimmed w cmd cwd rc out err :
  launch w cmd cwd = Completed rc out err ->
  exists s,
    value (run_cmd w cmd cwd) = Returns s /\
    (s = [] <-> blank out = true) /\
    (forall c r, s = c :: r ->
                 isspace c = false /\ isspace (last (c :: r) c) = false) /\
    strip s = s.
Proof.
  intros H. rewrite run_cmd_eq, H. exists (strip out).
  split; [reflexivity|]. split; [apply strip_nil_iff|]. split.
  - intros c r. apply strip_outer.
  - apply strip_idempotent.
Qed.

Lemma run_cmd_output_is_trimmed_witness :
  value (run_cmd Examples.exit1_world (lit "make check") None)
    = Returns (lit "partial").
Proof.
  destruct (@run_cmd_output_is_trimmed Examples.exit1_world (lit "make check") None
              1%Z (lit "partial" ++ [NL]) (lit "boom") eq_refl)
    as (s & Hs & _).
  rewrite Hs. vm_compute in Hs. injection Hs as <-. reflexivity.
Defined.

(** X8.  The size that the resource probe records for a service is the
    first field of what [du] printed, and there is none (IndexError) when
    the output is blank; when [du] times out the recorded size is
    "[timeout]", and when it cannot be run it is "[error:", the first
    field of the error sentinel. *)
Theorem du_size_is_first_field w nm_dir :
  match launch w (lit "du -sh '" ++ path_str nm_dir ++ lit "'") None with
  | Completed _ out _ =>
      (blank out = true -> value (du_size w nm_dir) = Raises IndexError) /\
      (blank out = false ->
       exists field rest, split out = field :: rest /\
                          value (du_size w nm_dir) = Returns field)
  | TimeoutExpired => value (du_size w nm_dir) = Returns (lit "[timeout]")
  | OtherError msg => value (du_size w nm_dir) = Returns (lit "[error:")
  end.
Proof.
  unfold du_size. rewrite run_cmd_eq.
  destruct (launch w _ None) as [rc out err| |msg]; try reflexivity.
  rewrite (@value_bind_returns _ _ _ _ (strip out)) by reflexivity.
  rewrite split_strip. split.
  - intros B. apply split_nil_iff in B. now rewrite B.
  - intros B. destruct (split out) as [|field rest] eqn:S.
    + apply split_nil_iff in S. congruence.
    + exists field, rest. split; reflexivity.
Qed.

(* ===================================================================== *)
(** * The session log *)
(* ===================================================================== *)

Lemma last_n_suffix A n (l : list A) : l = firstn (List.length l - n) l ++ last_n n l.
Proof. unfold last_n. symmetry. apply firstn_skipn. Qed.

Lemma last_n_length A n (l : list A) :
  List.length (last_n n l) = Nat.min n (List.length l).
Proof. unfold last_n. rewrite length_skipn. lia. Qed.

Lemma last_n_last_n A m n (l : list A) :
  m <= n -> last_n m (last_n n l) = last_n m l.
Proof.
  intros H. unfold last_n at 1. rewrite last_n_length. unfold last_n.
  rewrite skipn_skipn. f_equal. lia.
Qed.

(** X1.  [get_session_log] runs no command, and raises exactly what the
    test for the log file raises (the test stands outside the [try]: a
    ".ralph" directory that cannot be searched, a path that is too long).
    When the test returns, the probe returns the last lines of the log
    file, in the order of the file and at most ten of them (all of them
    when the file has ten lines or fewer), and the empty list when the file
    is missing or cannot be read. *)
Theorem session_log_is_tail w spec_dir :
  match exists_ w (spec_dir // ".ralph" // "session.log") with
  | Raises e =>
      get_session_log w spec_dir = (Raises e, [Call P_session_log (Some spec_dir)])
  | Returns _ =>
      exists log,
        get_session_log w spec_dir
          = (Returns log, [Call P_session_log (Some spec_dir)]) /\
        List.length log <= 10 /\
        match read_text w (spec_dir // ".ralph" // "session.log") with
        | Some text =>
            exists older,
              readlines text = older ++ log /\
              (older <> [] -> List.length log = 10)
        | None => log = []
        end
  end.
Proof.
  rewrite get_session_log_eq.
  destruct (exists_ w _) as [[|]|e] eqn:E; [| |reflexivity].
  - destruct (read_text w _) as [text|] eqn:R.
    + exists (last_n 10 (readlines text)). split; [reflexivity|].
      rewrite last_n_length. split; [lia|].
      exists (firstn (List.length (readlines text) - 10) (readlines text)).
      split; [apply last_n_suffix|].
      intros Hne.
      destruct (Nat.le_gt_cases (List.length (readlines text)) 10) as [L|L]; [|lia].
      exfalso. apply Hne. replace (_ - 10) with 0 by lia. reflexivity.
    + exists []. split; [reflexivity|]. split; [simpl; lia | reflexivity].
  - rewrite (@exists_false_read_text _ _ E).
    exists []. split; [reflexivity|]. split; [simpl; lia | reflexivity].
Qed.

(** X2.  Of a readable log file the verbose report shows the header and the
    last five lines of the file (all of them when it has five or fewer),
    each indented by two spaces and trimmed on the right; an empty log and
    a report that is not verbose show nothing. *)
Theorem session_block_shows_last_five w spec_dir text :
  read_text w (spec_dir // ".ralph" // "session.log") = Some text ->
  exists log,
    value (get_session_log w spec_dir) = Returns log /\
    session_block log true
      = match readlines text with
        | [] => []
        | _ => SESSION_HEADER
                 :: map (fun l => lit "  " ++ rstrip l) (last_n 5 (readlines text))
        end /\
    List.length (session_block log true) <= 6 /\
    session_block log false = [].
Proof.
  intros R. rewrite get_session_log_eq, (@read_text_exists _ _ _ R), R.
  exists (last_n 10 (readlines text)). split; [reflexivity|].
  assert (Hblock : session_block (last_n 10 (readlines text)) true
                   = match readlines text with
                     | [] => []
                     | _ => SESSION_HEADER
                              :: map (fun l => lit "  " ++ rstrip l)
                                   (last_n 5 (readlines text))
                     end).
  { unfold session_block. rewrite last_n_last_n by lia.
    pose proof (last_n_length 10 (readlines text)) as L.
    destruct (readlines text) as [|l ls]; [reflexivity|].
    destruct (last_n 10 (l :: ls)); [simpl in L; lia | reflexivity]. }
  split; [exact Hblock|]. split.
  - rewrite Hblock. destruct (readlines text); simpl; [lia|].
    rewrite length_map, last_n_length. lia.
  - unfold session_block. now rewrite andb_false_r.
Qed.

(* ===================================================================== *)
(** * The system diagnostics *)
(* ===================================================================== *)

Lemma diagnostics_lines w :
  exists docker r,
    value (run_cmd w WHICH_TIMEOUT None) = Returns r /\
    value (diagnostics w)
      = Returns ([ NL :: lit "## System Diagnostics";
                   NL :: lit "**Docker Status:**";
                   lit "```" ++ [NL] ++ docker ++ [NL] ++ lit "```";
                   NL :: lit "**System Dependencies:**";
                   lit "- timeout: "
                     ++ (if negb (Py.eqb r [])
                         then CHECK_MARK ++ lit " Available"
                         else CROSS_MARK ++ lit " Missing") ]
                 ++ (if nonempty r then [lit "  Path: `" ++ r ++ lit "`"] else [])).
Proof.
  assert (Hdocker : exists docker,
             check_docker_status w
             = (Returns [(lit "containers", docker)],
                [Call P_docker_status None; Exec DOCKER_PS None])).
  { unfold check_docker_status. rewrite run_cmd_eq.
    cbv beta iota delta [bind tick ret].
    destruct (nonempty _ && negb _); eexists; reflexivity. }
  destruct Hdocker as (docker & Hdocker).
  unfold diagnostics, check_system_deps.
  rewrite Hdocker, !run_cmd_eq.
  eexists docker, _. split; [reflexivity|].
  cbv beta iota delta [bind tick ret value fst dict_set flat_map].
  rewrite app_nil_r. reflexivity.
Qed.

(** X4.  The diagnostics never raise.  The dependency on "timeout" is
    reported from the string [run_cmd] returns for "which timeout": blank
    output gives the line "Missing" and no path line; any other outcome gives
    "Available" and a path line, so a [which] that times out or cannot be
    run is reported as available, with the sentinel as its path. *)
Theorem dependency_report w :
  exists diag,
    value (diagnostics w) = Returns diag /\
    match launch w WHICH_TIMEOUT None with
    | Completed _ out _ =>
        if blank out then
          In (lit "- timeout: " ++ CROSS_MARK ++ lit " Missing") diag /\
          (forall l, In l diag -> startswith (lit "  Path: ") l = false)
        else
          In (lit "- timeout: " ++ CHECK_MARK ++ lit " Available") diag /\
          In (lit "  Path: `" ++ strip out ++ lit "`") diag
    | TimeoutExpired =>
        In (lit "- timeout: " ++ CHECK_MARK ++ lit " Available") diag /\
        In (lit "  Path: `[timeout]`") diag
    | OtherError msg =>
        In (lit "- timeout: " ++ CHECK_MARK ++ lit " Available") diag /\
        In (lit "  Path: `[error: " ++ msg ++ lit "]`") diag
    end.
Proof.
  destruct (diagnostics_lines w) as (docker & r & Hr & Hd).
  eexists. split; [exact Hd|].
  rewrite run_cmd_eq in Hr. simpl in Hr. injection Hr as Hr.
  destruct (launch w WHICH_TIMEOUT None) as [rc out err| |msg]; subst r.
  - destruct (blank out) eqn:B.
    + apply strip_nil_iff in B. rewrite B. split; [in_list|].
      intros l Hl. simpl in Hl.
      repeat (destruct Hl as [<-|Hl]; [reflexivity|]). contradiction Hl.
    + destruct (strip out) as [|c s] eqn:S.
      * apply strip_nil_iff in S. congruence.
      * split; in_list.
  - split; in_list.
  - split; [in_list|]. simpl. do 5 right. left.
    rewrite <- !app_assoc. reflexivity.
Qed.

(* ===================================================================== *)
(** * The git probe and its block *)
(* ===================================================================== *)

Lemma recent_commits_shown g :
  recent_commits g <> [] -> In (lit "- Recent Commits:") (git_block (Some g)).
Proof.
  intros H. unfold git_block.
  destruct (recent_commits g) as [|c cs]; [congruence|].
  apply in_or_app. right. apply in_or_app. right. apply in_or_app. left.
  left. reflexivity.
Qed.

(** X5.  [get_git_info] raises exactly what a test for ".git" raises, in
    the ascent or at the directory where the ascent stops, and then runs
    no command; for a spec directory that holds ".ralph" no test raises.
    When the directory at which the ascent stops holds ".git", the probe
    runs exactly three commands there, for the branch, the log and the
    status in this order, and the list of recent commits it returns is
    never empty, so that the block always shows the line
    "- Recent Commits:"; otherwise it runs no command and returns the empty
    result. *)
Theorem git_info_commands w spec_dir :
  match ascend w spec_dir with
  | Raises e =>
      get_git_info w spec_dir = (Raises e, [Call P_git_info (Some spec_dir)])
  | Returns repo_root =>
      match exists_ w (repo_root // ".git") with
      | Returns true =>
          exists g,
            get_git_info w spec_dir
              = (Returns (Some g),
                 [ Call P_git_info (Some spec_dir);
                   Exec GIT_BRANCH (Some repo_root);
                   Exec GIT_LOG (Some repo_root);
                   Exec GIT_STATUS (Some repo_root) ]) /\
            recent_commits g <> [] /\
            In (lit "- Recent Commits:") (git_block (Some g))
      | Returns false =>
          get_git_info w spec_dir = (Returns None, [Call P_git_info (Some spec_dir)])
      | Raises e =>
          get_git_info w spec_dir = (Raises e, [Call P_git_info (Some spec_dir)])
      end
  end /\
  (exists_ w (spec_dir // ".ralph") = Returns true ->
   exists info, value (get_git_info w spec_dir) = Returns info).
Proof.
  split.
  - destruct (ascend w spec_dir) as [repo_root|e] eqn:A.
    + pose proof (@get_git_info_at _ _ _ A) as H.
      destruct (exists_ w (repo_root // ".git")) as [[|]|e]; auto.
      destruct H as (g & Hg & Hc). exists g. repeat split; auto.
      now apply recent_commits_shown.
    + unfold get_git_info. now rewrite bind_tick, A.
  - intros E. apply exists_true in E as (n & S).
    apply get_git_info_returns.
    apply (@dotgit_tests_return_found w spec_dir [lit ".ralph"] n); [|exact S].
    vm_compute. discriminate.
Qed.

Lemma git_info_commands_witness :
  exists info,
    value (get_git_info Examples.blocked_world Examples.spec_a) = Returns info.
Proof.
  apply (proj2 (git_info_commands Examples.blocked_world Examples.spec_a)).
  reflexivity.
Defined.

Lemma strip_nonempty_rstrip c : nonempty (strip c) = true -> rstrip c <> [].
Proof.
  intros H R. apply rstrip_nil_iff in R. apply strip_nil_iff in R.
  rewrite R in H. discriminate.
Qed.

(** X6.  The git block has at most seven lines (the header, the branch, the
    header of the commits with at most three commits, the uncommitted
    changes), it is empty when there is no git information, and it never
    shows a commit entry without text. *)
Theorem git_block_bounds info :
  List.length (git_block info) <= 7 /\
  (info = None -> git_block info = []) /\
  (forall l, In l (git_block info) -> l <> lit "  - ").
Proof.
  split; [|split].
  - destruct info as [g|]; [|simpl; lia].
    unfold git_block. rewrite !length_app.
    set (commits := map _ (filter _ (first_n 3 (recent_commits g)))).
    assert (H3 : @List.length str commits <= 3).
    { subst commits. rewrite length_map. etransitivity; [apply filter_length_le|].
      unfold first_n. apply firstn_le_length. }
    clearbody commits.
    destruct (nonempty (branch g)), (nonempty (recent_commits g)),
      (nonempty (status g) && nonempty (status g)); simpl List.length; lia.
  - now intros ->.
  - destruct info as [g|]; simpl; [|tauto].
    intros l [<-|H]; [discriminate|].
    rewrite !in_app_iff in H. destruct H as [H|[H|H]].
    + destruct (nonempty (branch g)); [|contradiction H].
      destruct H as [<-|[]]. discriminate.
    + destruct (nonempty (recent_commits g)); [|contradiction H].
      destruct H as [<-|H]; [discriminate|].
      apply in_map_iff in H as (c & <- & Hc).
      apply filter_In in Hc as [_ Hc]. apply strip_nonempty_rstrip in Hc.
      intros E. apply Hc. apply (app_inv_head (lit "  - ")).
      now rewrite app_nil_r.
    + destruct (nonempty (status g) && nonempty (status g)); [|contradiction H].
      destruct H as [<-|[]]. discriminate.
Qed.

(* ===================================================================== *)
(** * The title of a section *)
(* ===================================================================== *)

Lemma parent_length (p : Path) : List.length (parent p) = List.length p - 1.
Proof.
  destruct p as [|c p] using rev_ind; [reflexivity|].
  rewrite parent_snoc, length_app. simpl. lia.
Qed.

(** X13.  The title of a section shows the last three components of the
    path of the spec, joined by "/" (the whole path when it has fewer): two
    specs whose paths end in the same three components get the same
    title. *)
Theorem section_title_last_three spec_dir :
  section_title spec_dir = NL :: lit "### " ++ rel_str (last_n 3 spec_dir).
Proof.
  unfold section_title, relative_to, last_n. rewrite !parent_length.
  do 3 f_equal. f_equal. lia.
Qed.

(* ===================================================================== *)
(** * The outcome of the progress block *)
(* ===================================================================== *)

Lemma py_len_outcome v : py_len v = if has_len v then py_len v else raise TypeError.
Proof. destruct v; reflexivity. Qed.

Lemma py_len_no_len v : has_len v = false -> py_len v = raise TypeError.
Proof. destruct v; simpl; congruence. Qed.

(** X9.  What [format_report] does with the value read from progress.json:
    a false value (None, the empty object, list or string, zero) shows
    nothing; a true value that is not an object raises AttributeError; a
    non-empty object shows five to seven lines, unless completed_tasks is
    present without a length or failed_tasks is true without a length,
    which raises TypeError. *)
Theorem progress_block_outcome w v :
  match v with
  | JDict ((_ :: _) as d) =>
      let bad :=
        (exists c, dict_find (lit "completed_tasks") d = Some c /\ has_len c = false) \/
        (exists f, dict_find (lit "failed_tasks") d = Some f /\
                   truthy f = true /\ has_len f = false) in
      match value (progress_block w v) with
      | Returns lines => 5 <= List.length lines <= 7 /\ ~ bad
      | Raises e => e = TypeError /\ bad
      end
  | _ =>
      progress_block w v
      = if truthy v then (Raises AttributeError, []) else (Returns [], [])
  end.
Proof.
  destruct v as [|b|n|nz t|s|l|d].
  - reflexivity.
  - destruct b; reflexivity.
  - unfold progress_block. destruct (truthy (JInt n)); reflexivity.
  - destruct nz; reflexivity.
  - destruct s; reflexivity.
  - destruct l; reflexivity.
  - destruct d as [|kv d']; [reflexivity|].
    set (d := kv :: d'). cbv zeta.
    assert (Hne : d <> []) by discriminate.
    set (vc := dict_get (lit "completed_tasks") (JList []) d).
    set (vf := dict_get (lit "failed_tasks") JNone d).
    assert (Hvc : forall c, dict_find (lit "completed_tasks") d = Some c -> vc = c).
    { intros c H. unfold vc, dict_get. now rewrite H. }
    assert (Hvf : forall f, dict_find (lit "failed_tasks") d = Some f -> vf = f).
    { intros f H. unfold vf, dict_get. now rewrite H. }
    destruct (has_len vc) eqn:Lc.
    + destruct (py_len_has_len vc Lc) as (n & Hn).
      destruct (truthy vf && negb (has_len vf)) eqn:Bf.
      * apply andb_prop in Bf as [T Lf]. apply negb_true_iff in Lf.
        assert (E : progress_block w (JDict d) = (Raises TypeError, [])).
        { unfold progress_block. change (truthy (JDict d)) with true.
          cbv iota. unfold as_dict. rewrite bind_ret_l.
          fold vc vf. rewrite Hn, bind_ret_l, T, (py_len_no_len _ Lf).
          destruct (eq_str _ _); reflexivity. }
        rewrite E. cbn [value fst]. split; [reflexivity|]. right.
        destruct (dict_find (lit "failed_tasks") d) as [f|] eqn:F.
        -- exists f. rewrite <- (Hvf f eq_refl). auto.
        -- unfold vf, dict_get in T. rewrite F in T. discriminate.
      * assert (Hk : exists k, truthy vf = true -> py_len vf = ret k).
        { destruct (truthy vf) eqn:T.
          - simpl in Bf. apply negb_false_iff in Bf.
            destruct (py_len_has_len vf Bf) as (k & ->). eauto.
          - exists 0. discriminate. }
        destruct Hk as (k & Hk).
        rewrite (@progress_block_dict w d n k Hne Hn Hk). cbn [value ret fst].
        split.
        -- rewrite !length_app. fold vf.
           destruct (eq_str _ _), (truthy vf); simpl; lia.
        -- intros [(c & C & L)|(f & F & T & L)].
           ++ rewrite <- (Hvc c C) in L. congruence.
           ++ rewrite <- (Hvf f F) in T, L. rewrite T, L in Bf. discriminate.
    + assert (E : progress_block w (JDict d) = (Raises TypeError, [])).
      { unfold progress_block. change (truthy (JDict d)) with true.
        cbv iota. unfold as_dict. rewrite bind_ret_l.
        fold vc. rewrite (py_len_no_len _ Lc). reflexivity. }
      rewrite E. cbn [value fst]. split; [reflexivity|]. left.
      destruct (dict_find (lit "completed_tasks") d) as [c|] eqn:C.
      * exists c. rewrite <- (Hvc c eq_refl). auto.
      * unfold vc, dict_get in Lc. rewrite C in Lc. discriminate.
Qed.

(* ===================================================================== *)
(** * What the verbose flag changes *)
(* ===================================================================== *)

Lemma same_effects_bind A B C (m : M A) (k1 : A -> M B) (k2 : A -> M C) :
  (forall a, same_effects (k1 a) (k2 a)) -> same_effects (bind m k1) (bind m k2).
Proof.
  intros H. destruct m as [[a|e] t];
    [|split; [reflexivity | intros e'; simpl; split; intros [= <-]; reflexivity]].
  destruct (H a) as [Ht Hv]. unfold same_effects, bind, value, trace in *.
  destruct (k1 a) as [o1 t1], (k2 a) as [o2 t2]. simpl in *.
  split; [now rewrite Ht | exact Hv].
Qed.

Lemma same_effects_ret A B (a : A) (b : B) : same_effects (ret a) (ret b).
Proof. split; [reflexivity|]. intros e. split; discriminate. Qed.

(** X12.  The verbose flag changes what a section shows, not what is
    probed: with and without it the same probes are entered, the same
    commands are executed (the [du] of the resource probe included) and the
    same exception, if any, is raised.  A verbose section is the title, the
    progress block, the session-log block of what [get_session_log]
    returned, the git block and the disk-usage block of what
    [get_resource_usage] returned; the section without the flag is the
    same less these two blocks, the session log and the disk usage. *)
Theorem verbose_changes_rendering_only w spec_dir :
  same_effects (spec_section w spec_dir true) (spec_section w spec_dir false) /\
  forall lines, value (spec_section w spec_dir true) = Returns lines ->
    exists ralph_status progress session_log info resources,
      value (get_ralph_status w spec_dir) = Returns ralph_status /\
      value (progress_block w ralph_status) = Returns progress /\
      value (get_session_log w spec_dir) = Returns session_log /\
      value (get_git_info w spec_dir) = Returns info /\
      value (get_resource_usage w spec_dir) = Returns resources /\
      lines = [section_title spec_dir] ++ progress
                ++ session_block session_log true
                ++ git_block info ++ resources_block resources true /\
      value (spec_section w spec_dir false)
        = Returns ([section_title spec_dir] ++ progress ++ git_block info).
Proof.
  split.
  - unfold spec_section. repeat (apply same_effects_bind; intros ?).
    apply same_effects_ret.
  - intros lines H. unfold spec_section in H.
    apply value_bind_inv in H as (rs & Hrs & H).
    apply value_bind_inv in H as (progress & Hp & H).
    apply value_bind_inv in H as (log & Hlog & H).
    apply value_bind_inv in H as (info & Hinfo & H).
    apply value_bind_inv in H as (res & Hres & H).
    injection H as <-.
    exists rs, progress, log, info, res. repeat (split; [assumption|]).
    split; [reflexivity|].
    rewrite (@spec_section_value w spec_dir false rs log info Hrs Hlog Hinfo).
    rewrite Hp, Hres. unfold session_block, resources_block.
    rewrite !andb_false_r. simpl. now rewrite app_nil_r.
Qed.

(* ===================================================================== *)
(** * The outcome of the resource probe *)
(* ===================================================================== *)

Lemma du_size_raises w nm_dir e :
  value (du_size w nm_dir) = Raises e -> e = IndexError.
Proof.
  unfold du_size. rewrite run_cmd_eq.
  match goal with
  | |- value (bind (Returns ?s, _) _) = _ -> _ =>
      rewrite (@value_bind_returns _ _ _ _ s) by reflexivity
  end.
  destruct (split _); simpl; [now intros [= <-] | discriminate].
Qed.

Lemma get_resource_usage_eq w spec_dir :
  get_resource_usage w spec_dir =
  (tick (Call P_resource_usage (Some spec_dir)) ;;;
   found <- lift (exists_ w (services_of spec_dir)) ;;
   if found then
     entries <- lift (iterdir w (services_of spec_dir)) ;;
     for_each entries (keep_service w) []
   else ret []).
Proof.
  unfold get_resource_usage, services_of.
  apply bind_ext; [reflexivity|]. intros _.
  apply bind_ext; [reflexivity|]. intros [|]; [|reflexivity].
  apply bind_ext; [reflexivity|]. intros entries.
  apply for_each_ext. intros s res.
  unfold keep_service, has_node_modules, du_size.
  destruct (is_dir w s) as [[|]|e]; try reflexivity.
  rewrite bind_lift_returns.
  destruct (exists_ w _) as [[|]|e]; try reflexivity.
  rewrite !bind_lift_returns. now rewrite bind_assoc.
Qed.

Lemma value_for_each_cons A S (x : A) l (body : A -> S -> M S) s :
  value (for_each (x :: l) body s) =
  match value (body x s) with
  | Returns s' => value (for_each l body s')
  | Raises e => Raises e
  end.
Proof.
  simpl. destruct (body x s) as [[s'|e] t]; [|reflexivity].
  unfold bind, value. cbn [fst]. now destruct (for_each l body s').
Qed.

(** The outcome of one turn of the loop. *)
Lemma keep_service_value w s res :
  value (keep_service w s res) =
  match has_node_modules w s with
  | Returns true =>
      match value (du_size w (s // "node_modules")) with
      | Returns size => Returns (dict_set (name s) size res)
      | Raises e => Raises e
      end
  | Returns false => Returns res
  | Raises e => Raises e
  end.
Proof.
  unfold keep_service. destruct (has_node_modules w s) as [[|]|e]; try reflexivity.
  rewrite bind_lift_returns.
  destruct (du_size w (s // "node_modules")) as [[size|e] t]; reflexivity.
Qed.

Lemma keep_service_raises w s res e :
  value (keep_service w s res) = Raises e <-> turn_raises w s e.
Proof.
  rewrite keep_service_value. unfold turn_raises.
  destruct (has_node_modules w s) as [[|]|e'].
  - destruct (value (du_size w (s // "node_modules"))) as [size|e''].
    + split; [discriminate|]. intros [H|[_ H]]; discriminate.
    + split; [intros [= ->]; auto|]. intros [H|[_ H]]; congruence.
  - split; [discriminate|]. intros [H|[H _]]; discriminate.
  - split; [intros [= ->]; auto|]. intros [H|[H _]]; congruence.
Qed.

Lemma keep_service_returns w s res :
  (forall e, ~ turn_raises w s e) ->
  value (keep_service w s res)
  = Returns (if holds (has_node_modules w s)
             then dict_set (name s) (size_of w s) res else res).
Proof.
  intros H. destruct (value (keep_service w s res)) as [res'|e] eqn:V.
  - rewrite keep_service_value in V. unfold size_of.
    destruct (has_node_modules w s) as [[|]|e']; simpl; try congruence.
    destruct (value (du_size w (s // "node_modules"))); congruence.
  - apply keep_service_raises in V. now apply H in V.
Qed.

Lemma keep_loop_returns w entries : forall acc,
  (forall s e, In s entries -> ~ turn_raises w s e) ->
  value (for_each entries (keep_service w) acc)
  = Returns (fold_left (fun res s =>
                          if holds (has_node_modules w s)
                          then dict_set (name s) (size_of w s) res else res)
               entries acc).
Proof.
  induction entries as [|s entries IH]; intros acc H; [reflexivity|].
  rewrite value_for_each_cons, keep_service_returns
    by (intros e; apply H; now left).
  apply IH. intros s' e Hs'. apply H. now right.
Qed.

(** The loop raises at the first entry whose turn raises. *)
Lemma keep_loop_raises w entries : forall acc e,
  value (for_each entries (keep_service w) acc) = Raises e <->
  exists pre s post,
    entries = pre ++ s :: post /\
    (forall x e', In x pre -> ~ turn_raises w x e') /\
    turn_raises w s e.
Proof.
  induction entries as [|s entries IH]; intros acc e.
  - simpl. split; [discriminate|].
    intros (pre & s & post & H & _). now destruct pre.
  - rewrite value_for_each_cons.
    destruct (value (keep_service w s acc)) as [acc'|e0] eqn:V.
    + assert (Hs : forall e', ~ turn_raises w s e').
      { intros e' T. apply (keep_service_raises w s acc) in T. congruence. }
      rewrite IH. split.
      * intros (pre & s' & post & -> & Hpre & T).
        exists (s :: pre), s', post. repeat split; auto.
        intros x e' [<-|Hx]; auto.
      * intros (pre & s' & post & E & Hpre & T).
        destruct pre as [|x pre]; injection E as <- ->.
        -- now apply Hs in T.
        -- exists pre, s', post. repeat split; auto.
           intros y e' Hy. apply Hpre. now right.
    + apply keep_service_raises in V. split.
      * intros [= <-]. exists [], s, entries.
        split; [reflexivity|]. split; [intros x e' [] | exact V].
      * intros (pre & s' & post & E & Hpre & T).
        destruct pre as [|x pre]; injection E as <- ->.
        -- unfold turn_raises in V, T.
           destruct V as [V|[V1 V2]], T as [T|[T1 T2]]; congruence.
        -- exfalso. apply (Hpre s e0); [now left | exact V].
Qed.

Lemma dict_set_fresh V k (v : V) (d : dict V) :
  ~ In k (map fst d) -> dict_set k v d = d ++ [(k, v)].
Proof.
  induction d as [|[k' v'] d IH]; simpl; [reflexivity|].
  intros H. destruct (Py.eqb k k') eqn:E.
  - apply str_eqb_eq in E. exfalso. apply H. now left.
  - rewrite IH; [reflexivity|]. intros Hin. apply H. now right.
Qed.

Lemma keep_fold_distinct w entries : forall acc,
  NoDup (map name entries) ->
  (forall s, In s entries -> ~ In (name s) (map fst acc)) ->
  fold_left (fun res s =>
               if holds (has_node_modules w s)
               then dict_set (name s) (size_of w s) res else res)
    entries acc
  = acc ++ map (fun s => (name s, size_of w s))
             (filter (fun s => holds (has_node_modules w s)) entries).
Proof.
  induction entries as [|s entries IH]; intros acc Hnd Hfresh; simpl.
  - now rewrite app_nil_r.
  - inversion Hnd as [|x xs Hx Hxs]; subst.
    destruct (holds (has_node_modules w s)).
    + rewrite dict_set_fresh by (apply Hfresh; now left).
      rewrite IH; [simpl; now rewrite <- app_assoc | exact Hxs |].
      intros s' Hs'. rewrite map_app, in_app_iff. simpl.
      intros [H|[H|[]]].
      * apply (Hfresh s'); [now right | exact H].
      * apply Hx. rewrite H. now apply in_map.
    + apply IH; [exact Hxs|]. intros s' Hs'. apply Hfresh. now right.
Qed.

Lemma name_child (p : Path) c : name (child p c) = c.
Proof. unfold name, child. apply last_last. Qed.

(** The entries that [iterdir] returns have distinct names. *)
Lemma iterdir_names w p entries :
  wf_node (fs w) = true -> iterdir w p = Returns entries ->
  NoDup (map name entries).
Proof.
  intros Hwf. unfold iterdir.
  destruct (stat w p) as [[t|[|] x es]|e] eqn:S; try discriminate.
  intros [= <-]. rewrite map_map.
  erewrite map_ext; [exact (@wf_names _ _ _ (@stat_wf _ _ _ Hwf S))|].
  intros e. apply name_child.
Qed.

(** X7.  The outcome of [get_resource_usage], by what stands at
    "../../services" of the spec directory.  The probe raises what the
    test for that directory raises, and what [iterdir] raises on it (it is
    a plain file, or cannot be listed); it returns the empty result, and
    runs no command, when nothing is there.  Otherwise the loop over the
    entries raises at the first entry whose turn raises, and with the
    exception of that turn: one of the two tests on the entry raises, or
    [du] gives no field for an entry that is a directory holding
    "node_modules", which is an IndexError.  When no turn raises, the
    probe returns, in the order of the directory, the name and the size of
    each entry that is a directory holding "node_modules" and of no
    other. *)
Theorem resource_usage_outcome w spec_dir :
  match exists_ w (services_of spec_dir) with
  | Raises e =>
      get_resource_usage w spec_dir
      = (Raises e, [Call P_resource_usage (Some spec_dir)])
  | Returns false =>
      get_resource_usage w spec_dir
      = (Returns [], [Call P_resource_usage (Some spec_dir)])
  | Returns true =>
      match iterdir w (services_of spec_dir) with
      | Raises e =>
          get_resource_usage w spec_dir
          = (Raises e, [Call P_resource_usage (Some spec_dir)])
      | Returns entries =>
          (forall e, value (get_resource_usage w spec_dir) = Raises e <->
                     exists pre s post,
                       entries = pre ++ s :: post /\
                       (forall x e', In x pre -> ~ turn_raises w x e') /\
                       turn_raises w s e) /\
          (forall s e, turn_raises w s e ->
                       has_node_modules w s = Raises e \/ e = IndexError) /\
          (wf_node (fs w) = true ->
           (forall s e, In s entries -> ~ turn_raises w s e) ->
           value (get_resource_usage w spec_dir)
           = Returns (map (fun s => (name s, size_of w s))
                        (filter (fun s => holds (has_node_modules w s)) entries)))
      end
  end.
Proof.
  rewrite get_resource_usage_eq, bind_tick.
  destruct (exists_ w (services_of spec_dir)) as [[|]|e]; try reflexivity.
  rewrite bind_lift_returns.
  destruct (iterdir w (services_of spec_dir)) as [entries|e] eqn:I; [|reflexivity].
  rewrite bind_lift_returns. cbn [value fst]. split; [|split].
  - intros e. apply keep_loop_raises.
  - intros s e [H|[_ H]]; [now left | right]. exact (du_size_raises _ _ H).
  - intros Hwf Hok. rewrite keep_loop_returns by exact Hok.
    f_equal. rewrite keep_fold_distinct; [reflexivity| |intros ? ? []].
    exact (@iterdir_names _ _ _ Hwf I).
Qed.

(* ===================================================================== *)
(** * How the report is assembled *)
(* ===================================================================== *)

(** The loop of [format_report] over sections that all return. *)
Lemma sections_loop_returns w verbose specs : forall sections init,
  Forall2 (fun d s => value (spec_section w d verbose) = Returns s) specs sections ->
  for_each specs (fun spec_dir lines =>
                    section <- spec_section w spec_dir verbose ;;
                    ret (lines ++ section)) init
  = (Returns (init ++ List.concat sections),
     List.concat (map (fun d => trace (spec_section w d verbose)) specs)).
Proof.
  induction specs as [|d specs IH]; intros sections init H;
    inversion H as [|d' s specs' ss Hd Hrest]; subst; simpl.
  - now rewrite app_nil_r.
  - destruct (spec_section w d verbose) as [o t]. simpl in Hd. subst o.
    cbn [bind ret]. rewrite app_nil_r.
    rewrite (IH ss (init ++ s) Hrest). cbn [trace snd].
    now rewrite <- app_assoc.
Qed.

(** The loop stops at the first section that raises. *)
Lemma sections_loop_raises w verbose pre d post e : forall init,
  Forall (fun x => exists s, value (spec_section w x verbose) = Returns s) pre ->
  value (spec_section w d verbose) = Raises e ->
  for_each (pre ++ d :: post)
    (fun spec_dir lines =>
       section <- spec_section w spec_dir verbose ;;
       ret (lines ++ section)) init
  = (Raises e,
     List.concat (map (fun x => trace (spec_section w x verbose)) pre)
       ++ trace (spec_section w d verbose)).
Proof.
  induction pre as [|x pre IH]; intros init Hpre Hd; simpl.
  - destruct (spec_section w d verbose) as [o t]. simpl in Hd. subst o.
    reflexivity.
  - inversion Hpre as [|x' pre' Hx Hrest]; subst. destruct Hx as (s & Hx).
    destruct (spec_section w x verbose) as [o t]. simpl in Hx. subst o.
    cbn [bind ret]. rewrite app_nil_r.
    rewrite (IH (init ++ s) Hrest Hd). cbn [trace snd].
    now rewrite <- app_assoc.
Qed.


(** X10.  When every section returns, the report is the header, the line
    "Found N Ralph Spec(s)" with N the number of specs given, the sections
    in the order of the specs and, in a verbose report, the diagnostics,
    joined by newlines. *)
Theorem report_is_assembled_in_order w specs verbose sections :
  specs <> [] ->
  Forall2 (fun d s => value (spec_section w d verbose) = Returns s) specs sections ->
  exists diag,
    value (diagnostics w) = Returns diag /\
    value (format_report w specs verbose)
    = Returns (join [NL]
                 (header w ++ [count_line (List.length specs)]
                    ++ List.concat sections ++ (if verbose then diag else []))).
Proof.
  intros Hne H. destruct (diagnostics_eq w) as (diag & Hd).
  exists diag. split; [now rewrite Hd|].
  unfold format_report, report_lines.
  replace (negb (nonempty specs)) with false
    by (destruct specs; [congruence|reflexivity]).
  rewrite (@sections_loop_returns w verbose specs sections _ H).
  destruct verbose.
  - rewrite Hd. cbn [bind ret value fst]. now rewrite <- !app_assoc.
  - cbn [bind ret value fst]. now rewrite app_nil_r, <- !app_assoc.
Qed.

(** X11.  A section that raises aborts the whole report: [format_report]
    raises the exception of the first section that raises, and its trace
    ends with the events of that section, so that no later spec is probed
    and no diagnostics are run. *)
Theorem report_aborts_at_first_failure w verbose pre d post e :
  Forall (fun x => exists s, value (spec_section w x verbose) = Returns s) pre ->
  value (spec_section w d verbose) = Raises e ->
  format_report w (pre ++ d :: post) verbose
  = (Raises e,
     List.concat (map (fun x => trace (spec_section w x verbose)) pre)
       ++ trace (spec_section w d verbose)).
Proof.
  intros Hpre Hd. unfold format_report, report_lines.
  replace (negb (nonempty (pre ++ d :: post))) with false
    by (destruct pre; reflexivity).
  rewrite (@sections_loop_raises w verbose pre d post e _ Hpre Hd). reflexivity.
Qed.

(* ===================================================================== *)
(** * The entry point *)
(* ===================================================================== *)









(* ===================================================================== *)
(** * Discovery does not depend on the order of directory entries *)
(* ===================================================================== *)





(* ===================================================================== *)
(** * The properties above on the example worlds *)
(* ===================================================================== *)

Lemma session_block_shows_last_five_witness :
  exists log,
    value (get_session_log Examples.logged_world Examples.spec_a) = Returns log /\
    session_block log true
      = [ SESSION_HEADER; lit "  l3"; lit "  l4"; lit "  l5"; lit "  l6"; lit "  l7" ].
Proof.
  destruct (@session_block_shows_last_five Examples.logged_world Examples.spec_a
              Examples.seven_lines eq_refl)
    as (log & Hlog & Hblock & _).
  exists log. split; [exact Hlog|]. rewrite Hblock. reflexivity.
Defined.

Lemma du_size_is_first_field_witness :
  value (du_size Examples.du_fails_world
           (Examples.ws // "services" // "api" // "node_modules"))
    = Raises IndexError /\
  value (du_size Examples.measured_world
           (Examples.ws // "services" // "api" // "node_modules"))
    = Returns (lit "12M").
Proof.
  split.
  - destruct (du_size_is_first_field Examples.du_fails_world
                (Examples.ws // "services" // "api" // "node_modules")) as [H _].
    apply H. reflexivity.
  - destruct (du_size_is_first_field Examples.measured_world
                (Examples.ws // "services" // "api" // "node_modules")) as [_ H].
    destruct (H eq_refl) as (field & rest & Hs & Hv).
    rewrite Hv. vm_compute in Hs. injection Hs as <- _. reflexivity.
Defined.

Lemma resource_usage_outcome_witness :
  value (get_resource_usage Examples.measured_world Examples.spec_a)
    = Returns [(lit "api", lit "12M")].
Proof.
  pose proof (resource_usage_outcome Examples.measured_world Examples.spec_a) as H.
  assert (E : exists_ Examples.measured_world (services_of Examples.spec_a)
              = Returns true) by reflexivity.
  assert (I : iterdir Examples.measured_world (services_of Examples.spec_a)
              = Returns [ Examples.ws // "services" // "web";
                          Examples.ws // "services" // "api";
                          Examples.ws // "services" // "README" ]) by reflexivity.
  rewrite E, I in H. destruct H as (_ & _ & H).
  rewrite H; [reflexivity | reflexivity |].
  intros s e Hs T.
  apply (proj2 (keep_service_raises Examples.measured_world s [] e)) in T.
  destruct Hs as [<-|[<-|[<-|[]]]]; vm_compute in T; discriminate T.
Defined.

Lemma report_is_assembled_in_order_witness :
  value (format_report Examples.blocked_world [Examples.spec_a] false)
    = Returns (join [NL]
                 [ lit "# Ralph Workspace Spec Checkup";
                   NL :: lit "**Generated:** 2024-01-01 00:00:00";
                   lit "**Host:** devbox";
                   lit "**Python:** 3.11.4";
                   NL :: lit "## Found 1 Ralph Spec(s)";
                   NL :: lit "### ws/specs/a";
                   NL :: lit "**Ralph Progress:**";
                   lit "- Status: `blocked`";
                   lit "- Current Task: `t3`";
                   lit "- Completed: 2 tasks";
                   BLOCKED_PREFIX ++ lit "awaiting approval";
                   lit "- Last Updated: `2024-01-01T00:00:00Z`";
                   NL :: lit "**Git Status:**";
                   lit "- Branch: `main`";
                   lit "- Recent Commits:";
                   lit "  - 1a2b3c4 add parser";
                   lit "  - 5d6e7f8 initial import" ]).
Proof.
  assert (Hne : [Examples.spec_a] <> []) by discriminate.
  destruct (@report_is_assembled_in_order Examples.blocked_world [Examples.spec_a]
              false
              [[ NL :: lit "### ws/specs/a";
                 NL :: lit "**Ralph Progress:**";
                 lit "- Status: `blocked`";
                 lit "- Current Task: `t3`";
                 lit "- Completed: 2 tasks";
                 BLOCKED_PREFIX ++ lit "awaiting approval";
                 lit "- Last Updated: `2024-01-01T00:00:00Z`";
                 NL :: lit "**Git Status:**";
                 lit "- Branch: `main`";
                 lit "- Recent Commits:";
                 lit "  - 1a2b3c4 add parser";
                 lit "  - 5d6e7f8 initial import" ]] Hne)
    as (diag & _ & H).
  - constructor; [reflexivity | constructor].
  - rewrite H. reflexivity.
Defined.

Lemma report_aborts_at_first_failure_witness :
  value (format_report Examples.du_fails_world
           [Examples.spec_a; Examples.spec_b] true)
    = Raises IndexError.
Proof.
  exact (f_equal (@fst _ _)
           (@report_aborts_at_first_failure Examples.du_fails_world true []
              Examples.spec_a [Examples.spec_b] IndexError (Forall_nil _) eq_refl)).
Defined.

Lemma verbose_changes_rendering_only_witness :
  exists progress info,
    value (spec_section Examples.logged_world Examples.spec_a false)
      = Returns ([section_title Examples.spec_a] ++ progress ++ git_block info).
Proof.
  destruct (verbose_changes_rendering_only Examples.logged_world Examples.spec_a)
    as [_ H].
  destruct (H _ eq_refl)
    as (rs & progress & log & info & res & _ & _ & _ & _ & _ & _ & Hv).
  exists progress, info. exact Hv.
Defined.



Lemma git_block_bounds_witness :
  List.length
    (git_block (Some {| branch := lit "main";
                        recent_commits := [lit "a1"; []; lit "b2"; lit "c3"; lit "d4"];
                        status := lit " M x" |})) <= 7.
Proof.
  apply (proj1 (git_block_bounds _)).
Defined.
